(** * next-api: the request validation adapter of [src/index.ts]

    A shallow embedding of [ApiHandlerError] and [apiHandler], with a model
    of the host's JSON text format, and the properties of the adapter's
    pipeline: field extraction, schema validation, pre-handler, handler. *)

From Stdlib Require Import List String Ascii ZArith Lia Bool Arith.
From Stdlib Require Import DecimalString DecimalZ DecimalN DecimalFacts.
Import ListNotations.

Local Open Scope string_scope.
Local Open Scope list_scope.
Local Open Scope nat_scope.

(** ** JSON values

    The values [JSON.parse] produces and [JSON.stringify] consumes.  Numbers
    are the integer-valued ones; a string is a sequence of 8-bit code units;
    an object is its list of properties in enumeration order. *)

#[local] Set Warnings "-register-all".

Inductive json : Type :=
  | JNull
  | JBool (b : bool)
  | JNum (n : Z)
  | JStr (s : string)
  | JArr (items : list json)
  | JObj (props : list (string * json)).

(** A plain JS object: its own enumerable properties, in enumeration order.
    The prototype is not part of the model. *)
Definition JsObject : Type := list (string * json).

(** An array index: the canonical decimal text of an integer below
    [2^32 - 1].  A JS object enumerates the properties so named first, in
    ascending order, and the others after them in the order of their
    creation. *)
Definition array_index (key : string) : option N :=
  match NilEmpty.uint_of_string key with
  | Some u =>
      if Decimal.uint_beq (Decimal.unorm u) u
      then if (N.of_uint u <? 4294967295)%N then Some (N.of_uint u) else None
      else None
  | None => None
  end.

(** [key] is enumerated before [other], whichever was created first. *)
Definition enumerated_before (key other : string) : bool :=
  match array_index key, array_index other with
  | Some n, Some m => (n <? m)%N
  | Some _, None => true
  | None, _ => false
  end.

Definition has_own (obj : JsObject) (key : string) : bool :=
  existsb (String.eqb key) (map fst obj).

(** A new value for a property the object has: the property keeps its
    place. *)
Fixpoint obj_replace (key : string) (val : json) (obj : JsObject) : JsObject :=
  match obj with
  | [] => []
  | (k, v) :: rest =>
      if String.eqb k key then (k, val) :: rest
      else (k, v) :: obj_replace key val rest
  end.

(** A property the object does not have yet, at its place in the
    enumeration. *)
Fixpoint obj_insert (key : string) (val : json) (obj : JsObject) : JsObject :=
  match obj with
  | [] => [(key, val)]
  | (k, v) :: rest =>
      if enumerated_before key k then (key, val) :: (k, v) :: rest
      else (k, v) :: obj_insert key val rest
  end.

(** [CreateDataProperty]: what [JSON.parse] does for each member. *)
Definition obj_define (key : string) (val : json) (obj : JsObject) : JsObject :=
  if has_own obj key then obj_replace key val obj else obj_insert key val obj.

(** [obj[key] = val] on an object created by [{}].  The key [__proto__] is
    the accessor of [Object.prototype] unless the object has a property of
    that name: the assignment then creates no property. *)
Definition obj_assign (key : string) (val : json) (obj : JsObject) : JsObject :=
  if String.eqb key "__proto__" && negb (has_own obj key) then obj
  else obj_define key val obj.

Definition obj_of_entries (entries : list (string * json)) : JsObject :=
  fold_left (fun obj kv => obj_define (fst kv) (snd kv) obj) entries [].

(** The property lists of JS objects: no name occurs twice, and the names
    are in enumeration order; at any depth. *)
Fixpoint nodup_keys (keys : list string) : bool :=
  match keys with
  | [] => true
  | k :: rest => negb (existsb (String.eqb k) rest) && nodup_keys rest
  end.

Fixpoint enumeration_ordered (keys : list string) : bool :=
  match keys with
  | [] => true
  | k :: rest =>
      forallb (fun later => negb (enumerated_before later k)) rest
      && enumeration_ordered rest
  end.

Fixpoint wf_json (v : json) : bool :=
  match v with
  | JArr items => forallb wf_json items
  | JObj props =>
      nodup_keys (map fst props) && enumeration_ordered (map fst props)
      && forallb (fun kv => wf_json (snd kv)) props
  | _ => true
  end.

(** ** The JSON text format *)

Module Json.

Definition text : Type := list ascii.

Definition dquote : ascii := "034"%char.
Definition backslash : ascii := "092"%char.

(** *** Numbers *)

Definition print_number (n : Z) : text :=
  list_ascii_of_string (NilZero.string_of_int (Z.to_int n)).

Definition is_digit (c : ascii) : bool :=
  let n := nat_of_ascii c in (48 <=? n) && (n <=? 57).

(** The longest run of digits at the head of the text, as a decimal. *)
Fixpoint read_uint (s : text) : Decimal.uint * text :=
  match s with
  | [] => (Decimal.Nil, [])
  | c :: r =>
      if is_digit c then
        let (u, rest) := read_uint r in
        (match nat_of_ascii c - 48 with
         | 0 => Decimal.D0 u | 1 => Decimal.D1 u | 2 => Decimal.D2 u
         | 3 => Decimal.D3 u | 4 => Decimal.D4 u | 5 => Decimal.D5 u
         | 6 => Decimal.D6 u | 7 => Decimal.D7 u | 8 => Decimal.D8 u
         | _ => Decimal.D9 u
         end, rest)
      else (Decimal.Nil, s)
  end.

(** [int] of the JSON grammar: an optional minus, then [0] or a digit run
    without a leading zero. *)
Definition parse_number (s : text) : option (Z * text) :=
  let (neg, s1) :=
    match s with
    | c :: r => if Ascii.eqb c "-" then (true, r) else (false, s)
    | [] => (false, s)
    end in
  let (u, rest) := read_uint s1 in
  if Decimal.uint_beq (Decimal.unorm u) u
  then Some (Z.of_int (if neg then Decimal.Neg u else Decimal.Pos u), rest)
  else None.

(** *** Strings *)

Definition hex_digit (n : nat) : ascii :=
  ascii_of_nat (if n <? 10 then 48 + n else 87 + n).

Definition hex_value (c : ascii) : option nat :=
  let n := nat_of_ascii c in
  if (48 <=? n) && (n <=? 57) then Some (n - 48)
  else if (97 <=? n) && (n <=? 102) then Some (n - 87)
  else if (65 <=? n) && (n <=? 70) then Some (n - 55)
  else None.

(** [QuoteJSONString] on one code unit. *)
Definition escape_char (c : ascii) : text :=
  let n := nat_of_ascii c in
  if Ascii.eqb c dquote then [backslash; dquote]
  else if Ascii.eqb c backslash then [backslash; backslash]
  else if n =? 8 then [backslash; "b"%char]
  else if n =? 9 then [backslash; "t"%char]
  else if n =? 10 then [backslash; "n"%char]
  else if n =? 12 then [backslash; "f"%char]
  else if n =? 13 then [backslash; "r"%char]
  else if n <? 32 then
    [backslash; "u"%char; "0"%char; "0"%char;
     hex_digit (n / 16); hex_digit (n mod 16)]
  else [c].

Fixpoint escape (s : string) : text :=
  match s with
  | EmptyString => []
  | String c r => escape_char c ++ escape r
  end.

Definition print_string (s : string) : text :=
  dquote :: escape s ++ [dquote].

Definition unescape (e : ascii) : option ascii :=
  if Ascii.eqb e dquote then Some dquote
  else if Ascii.eqb e backslash then Some backslash
  else if Ascii.eqb e "/" then Some "/"%char
  else if Ascii.eqb e "b" then Some "008"%char
  else if Ascii.eqb e "t" then Some "009"%char
  else if Ascii.eqb e "n" then Some "010"%char
  else if Ascii.eqb e "f" then Some "012"%char
  else if Ascii.eqb e "r" then Some "013"%char
  else None.

(** The code unit of [\uXXXX], when it is one the model has. *)
Definition unicode_escape (h1 h2 h3 h4 : ascii) : option ascii :=
  match hex_value h1, hex_value h2, hex_value h3, hex_value h4 with
  | Some a, Some b, Some c, Some d =>
      if (a =? 0) && (b =? 0) then Some (ascii_of_nat (16 * c + d)) else None
  | _, _, _, _ => None
  end.

Definition cons_char (c : ascii) (r : option (string * text)) :
  option (string * text) :=
  match r with
  | Some (str, rest) => Some (String c str, rest)
  | None => None
  end.

(** The characters of a string literal, after its opening quote and up to
    the closing one. *)
Fixpoint parse_chars (s : text) : option (string * text) :=
  match s with
  | [] => None
  | c :: r =>
      if Ascii.eqb c dquote then Some (EmptyString, r)
      else if Ascii.eqb c backslash then
        match r with
        | [] => None
        | e :: r1 =>
            if Ascii.eqb e "u" then
              match r1 with
              | h1 :: h2 :: h3 :: h4 :: r2 =>
                  match unicode_escape h1 h2 h3 h4 with
                  | Some ch => cons_char ch (parse_chars r2)
                  | None => None
                  end
              | _ => None
              end
            else
              match unescape e with
              | Some ch => cons_char ch (parse_chars r1)
              | None => None
              end
        end
      else if nat_of_ascii c <? 32 then None
      else cons_char c (parse_chars r)
  end.

(** *** Values *)

Definition is_ws (c : ascii) : bool :=
  let n := nat_of_ascii c in
  (n =? 32) || (n =? 9) || (n =? 10) || (n =? 13).

Fixpoint skip_ws (s : text) : text :=
  match s with
  | c :: r => if is_ws c then skip_ws r else s
  | [] => []
  end.

Definition comma : text := [","%char].

Fixpoint join (parts : list text) : text :=
  match parts with
  | [] => []
  | [p] => p
  | p :: rest => p ++ comma ++ join rest
  end.

(** [JSON.stringify] without indentation. *)
Fixpoint print (v : json) : text :=
  match v with
  | JNull => list_ascii_of_string "null"
  | JBool true => list_ascii_of_string "true"
  | JBool false => list_ascii_of_string "false"
  | JNum n => print_number n
  | JStr s => print_string s
  | JArr items => "["%char :: join (map print items) ++ ["]"%char]
  | JObj props =>
      "{"%char ::
        join (map (fun kv => print_string (fst kv) ++ ":"%char :: print (snd kv))
                  props)
        ++ ["}"%char]
  end.

Definition keyword (w : string) (v : json) (s : text) : option (json * text) :=
  let k := list_ascii_of_string w in
  if list_eq_dec ascii_dec (firstn (List.length k) s) k
  then Some (v, skipn (List.length k) s)
  else None.

(** Recursive descent over the text; [fuel] bounds the nesting of calls. *)
Fixpoint parse_value (fuel : nat) (s : text) : option (json * text) :=
  match fuel with
  | O => None
  | S fuel' =>
      match skip_ws s with
      | [] => None
      | c :: r =>
          if is_digit c || Ascii.eqb c "-" then
            match parse_number (c :: r) with
            | Some (n, rest) => Some (JNum n, rest)
            | None => None
            end
          else if Ascii.eqb c dquote then
            match parse_chars r with
            | Some (str, rest) => Some (JStr str, rest)
            | None => None
            end
          else if Ascii.eqb c "[" then
            match skip_ws r with
            | c1 :: r1 =>
                if Ascii.eqb c1 "]" then Some (JArr [], r1)
                else
                  match parse_elements fuel' r with
                  | Some (items, rest) => Some (JArr items, rest)
                  | None => None
                  end
            | [] => None
            end
          else if Ascii.eqb c "{" then
            match skip_ws r with
            | c1 :: r1 =>
                if Ascii.eqb c1 "}" then Some (JObj [], r1)
                else
                  match parse_members fuel' r with
                  | Some (props, rest) => Some (JObj (obj_of_entries props), rest)
                  | None => None
                  end
            | [] => None
            end
          else if Ascii.eqb c "n" then keyword "null" JNull (c :: r)
          else if Ascii.eqb c "t" then keyword "true" (JBool true) (c :: r)
          else if Ascii.eqb c "f" then keyword "false" (JBool false) (c :: r)
          else None
      end
  end

with parse_elements (fuel : nat) (s : text) : option (list json * text) :=
  match fuel with
  | O => None
  | S fuel' =>
      match parse_value fuel' s with
      | Some (v, r) =>
          match skip_ws r with
          | c :: r1 =>
              if Ascii.eqb c "," then
                match parse_elements fuel' r1 with
                | Some (items, rest) => Some (v :: items, rest)
                | None => None
                end
              else if Ascii.eqb c "]" then Some ([v], r1)
              else None
          | [] => None
          end
      | None => None
      end
  end

with parse_members (fuel : nat) (s : text) :
  option (list (string * json) * text) :=
  match fuel with
  | O => None
  | S fuel' =>
      match skip_ws s with
      | q :: r0 =>
          if Ascii.eqb q dquote then
            match parse_chars r0 with
            | Some (key, r1) =>
                match skip_ws r1 with
                | c1 :: r2 =>
                    if Ascii.eqb c1 ":" then
                      match parse_value fuel' r2 with
                      | Some (v, r3) =>
                          match skip_ws r3 with
                          | c :: r4 =>
                              if Ascii.eqb c "," then
                                match parse_members fuel' r4 with
                                | Some (props, rest) =>
                                    Some ((key, v) :: props, rest)
                                | None => None
                                end
                              else if Ascii.eqb c "}" then Some ([(key, v)], r4)
                              else None
                          | [] => None
                          end
                      | None => None
                      end
                    else None
                | [] => None
                end
            | None => None
            end
          else None
      | [] => None
      end
  end.

(** [JSON.parse]: one value, then nothing but white space.  [None] stands
    for the [SyntaxError].  The values are those of [json]: a number with a
    fraction or an exponent, and a string with an escape above [u00FF], are
    JSON whose value [json] does not hold, and the parser gives [None] on
    them too.  The properties of the adapter are stated for any
    [JsonHost]; this parser serves the examples, none of which has such a
    text. *)
Definition parse_text (s : text) : option json :=
  match parse_value (S (List.length s)) s with
  | Some (v, rest) =>
      match skip_ws rest with
      | [] => Some v
      | _ :: _ => None
      end
  | None => None
  end.

Definition parse (s : string) : option json :=
  parse_text (list_ascii_of_string s).

Definition stringify (v : json) : string :=
  string_of_list_ascii (print v).

(** The fuel [parse_value] needs on the text of a value. *)
Fixpoint jsize (v : json) : nat :=
  match v with
  | JArr items => S (fold_right (fun x acc => S (jsize x + acc)) 0 items)
  | JObj props => S (fold_right (fun kv acc => S (jsize (snd kv) + acc)) 0 props)
  | _ => 1
  end.

(** What may follow a number: anything but a digit. *)
Definition no_digit_ahead (s : text) : bool :=
  match s with
  | c :: _ => negb (is_digit c)
  | [] => true
  end.

(** Parsing undoes printing, whatever follows the value. *)
Definition roundtrips (v : json) : Prop :=
  wf_json v = true ->
  forall (fuel : nat) (rest : text),
    jsize v <= fuel -> no_digit_ahead rest = true ->
    parse_value fuel (print v ++ rest) = Some (v, rest).

Definition print_member (kv : string * json) : text :=
  print_string (fst kv) ++ ":"%char :: print (snd kv).

(** The first characters of a value. *)
Definition value_start (c : ascii) : bool :=
  is_digit c || Ascii.eqb c "-" || Ascii.eqb c dquote || Ascii.eqb c "["
  || Ascii.eqb c "{" || Ascii.eqb c "n" || Ascii.eqb c "t" || Ascii.eqb c "f".

End Json.


(** ** The host: responses, requests, JSON

    [NextResponse.json(body, {status})] and [new NextResponse(body, {status})]
    are the two ways the adapter builds a response.  A response is the body
    and the status it was built from. *)

Inductive Response : Type :=
  | NextResponse_json (body : json) (status : Z)
  | NextResponse_text (body : string) (status : Z).

(** The host builds a response with a body for a status from 200 to 599
    that is not one of the statuses without a body, 204, 205 and 304.  For
    any other status both constructors throw (a [RangeError] or a
    [TypeError]). *)
Definition Response_accepts (status : Z) : bool :=
  ((200 <=? status) && (status <=? 599)
   && negb ((status =? 204) || (status =? 205) || (status =? 304)))%Z.

Inductive HostError : Type :=
  | InvalidStatus (status : Z).

Inductive Construction : Type :=
  | Constructed (r : Response)
  | Refused (e : HostError).

(** [NextResponse.json(body, {status})] *)
Definition new_NextResponse_json (body : json) (status : Z) : Construction :=
  if Response_accepts status then Constructed (NextResponse_json body status)
  else Refused (InvalidStatus status).

(** [new NextResponse(body, {status})] *)
Definition new_NextResponse (body : string) (status : Z) : Construction :=
  if Response_accepts status then Constructed (NextResponse_text body status)
  else Refused (InvalidStatus status).

(** The values of type [unknown] that reach a schema: [undefined], plain
    data, or a response object. *)
Inductive JsValue : Type :=
  | VUndefined
  | VJson (j : json)
  | VResponse (r : Response).

(** [JSON.parse] ([None] when it throws) and [JSON.stringify]. *)
Class JsonHost : Type := {
  JSON_parse : string -> option json;
  JSON_stringify : json -> string
}.

(** What the adapter reads of a request: the entries of
    [new URL(req.url).searchParams], the text [req.json()] parses, and the
    entries of [headers()]. *)
Record NextRequest : Type := {
  searchParams : list (string * string);
  body_text : string;
  header_entries : list (string * string)
}.

Record NextFetchEvent : Type := {
  params : JsValue
}.

(** ** zod *)

Inductive PathSegment : Type :=
  | PathKey (name : string)
  | PathIndex (index : Z).

Record ZodIssue : Type := {
  message : string;
  path : list PathSegment
}.

(** The result of [safeParse]: [{success: true, data}] or
    [{success: false, error}], the latter given by [error.errors]. *)
Inductive SafeParseReturnType : Type :=
  | SafeParseSuccess (data : JsObject)
  | SafeParseError (errors : list ZodIssue).

Record AnyZodObject : Type := {
  safeParse : JsValue -> SafeParseReturnType
}.

(** ** [ApiHandlerError] and what a callback may throw *)

Record ApiHandlerError : Type := {
  Error_message : string;
  statusCode : Z
}.

(** The constructor's [message] argument: a string or an object. *)
Inductive MessageArg : Type :=
  | MessageString (s : string)
  | MessageObject (o : JsObject).

Definition new_ApiHandlerError {host : JsonHost}
  (message : MessageArg) (statusCode : option Z) : ApiHandlerError :=
  {| Error_message :=
       match message with
       | MessageString s => s
       | MessageObject o => JSON_stringify (JObj o)
       end;
     statusCode :=
       match statusCode with
       | Some code => code
       | None => 400%Z
       end |}.

Inductive Thrown : Type :=
  | ThrowApiHandlerError (e : ApiHandlerError)
  | ThrowError (message : string)
  | ThrowValue (v : JsValue).

Inductive Completion (A : Type) : Type :=
  | Returned (a : A)
  | Threw (e : Thrown).

Arguments Returned {A} a.
Arguments Threw {A} e.

(** ** The setup and the handler context *)

(** The four keys of the type [ValidationKeys].  [getData] switches on them;
    its [default] case, which throws, has no key to run on. *)
Inductive ValidationKeys : Type :=
  | key_body
  | key_segment
  | key_query
  | key_headers.

Definition key_name (k : ValidationKeys) : string :=
  match k with
  | key_body => "body"
  | key_segment => "segment"
  | key_query => "query"
  | key_headers => "headers"
  end.

Definition key_eqb (a b : ValidationKeys) : bool :=
  match a, b with
  | key_body, key_body | key_segment, key_segment
  | key_query, key_query | key_headers, key_headers => true
  | _, _ => false
  end.

Record HandlerContext : Type := {
  req : NextRequest;
  nfe : NextFetchEvent;
  body : JsObject;
  query : JsObject;
  segment : JsObject;
  headers : JsObject;
  errors : list ZodIssue
}.

(** [context[el]] and [context[el] = data]. *)
Definition context_get (context : HandlerContext) (el : ValidationKeys) :
  JsObject :=
  match el with
  | key_body => body context
  | key_segment => segment context
  | key_query => query context
  | key_headers => headers context
  end.

Definition context_set (context : HandlerContext) (el : ValidationKeys)
  (data : JsObject) : HandlerContext :=
  {| req := req context;
     nfe := nfe context;
     body := match el with key_body => data | _ => body context end;
     query := match el with key_query => data | _ => query context end;
     segment := match el with key_segment => data | _ => segment context end;
     headers := match el with key_headers => data | _ => headers context end;
     errors := errors context |}.

Definition context_set_errors (context : HandlerContext)
  (errs : list ZodIssue) : HandlerContext :=
  {| req := req context;
     nfe := nfe context;
     body := body context;
     query := query context;
     segment := segment context;
     headers := headers context;
     errors := errs |}.

Record Config : Type := {
  return400ValidationError : bool
}.

(** A pre-handler receives the context object itself: it gives back the
    state it leaves that object in, and returns or throws. *)
Definition PreHandler : Type :=
  HandlerContext -> HandlerContext * Completion unit.

(** The handler returns [void] or a response, or throws. *)
Definition Handler : Type :=
  HandlerContext -> Completion (option Response).

(** The object [setup.schema]: its property names in enumeration order,
    and [schema[el]], a schema or [undefined]. *)
Record SchemaObject : Type := {
  own_keys : list ValidationKeys;
  property : ValidationKeys -> option AnyZodObject
}.

Definition Object_entries (o : SchemaObject) :
  list (ValidationKeys * option AnyZodObject) :=
  map (fun k => (k, property o k)) (own_keys o).

Record Setup : Type := {
  schema : option SchemaObject;
  preHandler : option PreHandler;
  config : option Config
}.

(** ** What a run does, in order *)

Inductive Event : Type :=
  | EvGetData (type : ValidationKeys)
  | EvSafeParse (el : ValidationKeys) (data : JsValue)
  | EvConsoleLog (text : string)
  | EvPreHandler (context : HandlerContext)
  | EvHandler (context : HandlerContext).

Record World : Type := {
  context : HandlerContext;
  trace : list Event
}.

(** A step of the request handler goes on with a value, [return]s a
    response, or lets an error of the host through. *)
Inductive Step (A : Type) : Type :=
  | Next (a : A)
  | Return (r : Response)
  | Throw (e : HostError).

Arguments Next {A} a.
Arguments Return {A} r.
Arguments Throw {A} e.

Definition M (A : Type) : Type := World -> Step A * World.

Definition ret {A : Type} (a : A) : M A := fun w => (Next a, w).

Definition bind {A B : Type} (m : M A) (k : A -> M B) : M B :=
  fun w =>
    match m w with
    | (Next a, w') => k a w'
    | (Return r, w') => (Return r, w')
    | (Throw e, w') => (Throw e, w')
    end.

Definition exit {A : Type} (r : Response) : M A := fun w => (Return r, w).

Definition throw {A : Type} (e : HostError) : M A := fun w => (Throw e, w).

Definition emit (ev : Event) : M unit :=
  fun w => (Next tt, {| context := context w; trace := trace w ++ [ev] |}).

Definition get_context : M HandlerContext := fun w => (Next (context w), w).

Definition put_context (c : HandlerContext) : M unit :=
  fun w => (Next tt, {| context := c; trace := trace w |}).

Declare Scope adapter_scope.
Delimit Scope adapter_scope with adapter.

Notation "x <- m ;; k" := (bind m (fun x => k))
  (at level 61, m at next level, right associativity) : adapter_scope.
Notation "m ;; k" := (bind m (fun _ => k))
  (at level 61, right associativity) : adapter_scope.

Local Open Scope adapter_scope.

Fixpoint for_of {A : Type} (l : list A) (body : A -> M unit) : M unit :=
  match l with
  | [] => ret tt
  | el :: rest => body el ;; for_of rest body
  end.

Fixpoint emit_all (evs : list Event) : M unit :=
  match evs with
  | [] => ret tt
  | ev :: rest => emit ev ;; emit_all rest
  end.

(** What the request handler resolves to: a response of the adapter's own,
    or whatever the handler's call completes with; or the error of the host
    it rejects with. *)
Inductive Outcome : Type :=
  | Responded (r : Response)
  | FromHandler (c : Completion (option Response))
  | Rejected (e : HostError).

Definition outcome_of (built : Construction) : Outcome :=
  match built with
  | Constructed r => Responded r
  | Refused e => Rejected e
  end.

(** [a || b] on numbers: [0] is the falsy one. *)
Definition number_or (a b : Z) : Z := if Z.eqb a 0 then b else a.

Definition json_of_path (p : list PathSegment) : list json :=
  map (fun seg => match seg with
                  | PathKey name => JStr name
                  | PathIndex index => JNum index
                  end) p.

Section ApiHandler.

Context {host : JsonHost}.
Variable setup : Setup.
Variable handler : Handler.

Definition defaultConfig : Config := {| return400ValidationError := true |}.

(** [{...defaultConfig, ...(setup.config || {})}] *)
Definition effective_config : Config :=
  match config setup with
  | Some c => c
  | None => defaultConfig
  end.

Definition validationError (type : string) (data : option ZodIssue) :
  Response :=
  NextResponse_json
    (JObj [("type", JStr type);
           ("status", JStr "validation_error");
           ("message", JStr match data with
                            | Some issue => message issue
                            | None => ""
                            end);
           ("path", JArr match data with
                         | Some issue => json_of_path (path issue)
                         | None => []
                         end)])
    400.

Definition objectFromEntries (entries : list (string * string)) : JsObject :=
  fold_left (fun obj kv => obj_assign (fst kv) (JStr (snd kv)) obj) entries [].

Variable request : NextRequest.
Variable event : NextFetchEvent.

Definition initial_context : HandlerContext :=
  {| req := request;
     nfe := event;
     body := [];
     query := [];
     segment := [];
     headers := [];
     errors := [] |}.

Definition invalid_json_response (type : string) : Response :=
  NextResponse_json
    (JObj [("type", JStr type);
           ("status", JStr "error");
           ("message", JStr "Invalid JSON body provided");
           ("path", JArr [])])
    400.

(** [getData]: the value it returns and what it writes to the console.  Its
    [return NextResponse.json(...)] returns from [getData], so the response
    is the value it hands to its caller. *)
Definition getData (type : ValidationKeys) : JsValue * list string :=
  match type with
  | key_body =>
      match JSON_parse (body_text request) with
      | Some data => (VJson data, [])
      | None =>
          if return400ValidationError effective_config
          then (VResponse (invalid_json_response (key_name type)), [])
          else (VJson (JObj []), ["Invalid JSON body provided"])
      end
  | key_segment => (params event, [])
  | key_query => (VJson (JObj (objectFromEntries (searchParams request))), [])
  | key_headers =>
      (VJson (JObj (objectFromEntries (header_entries request))), [])
  end.

Definition toBeParsedList : list ValidationKeys :=
  match schema setup with
  | Some o =>
      map fst (filter (fun kv => match snd kv with
                                 | Some _ => true
                                 | None => false
                                 end) (Object_entries o))
  | None => []
  end.

(** [setup.schema[el]?.safeParse(data)] *)
Definition parse_field (el : ValidationKeys) (data : JsValue) :
  option SafeParseReturnType :=
  match schema setup with
  | Some o =>
      match property o el with
      | Some sch => Some (safeParse sch data)
      | None => None
      end
  | None => None
  end.

(** The body of the loop over [toBeParsedList]. *)
Definition validate_field (el : ValidationKeys) : M unit :=
  emit (EvGetData el) ;;
  emit_all (map EvConsoleLog (snd (getData el))) ;;
  let data := fst (getData el) in
  context <- get_context ;;
  match parse_field el data with
  | Some (SafeParseSuccess parsed_data) =>
      emit (EvSafeParse el data) ;;
      put_context (context_set context el parsed_data)
  | Some (SafeParseError errs) =>
      emit (EvSafeParse el data) ;;
      put_context (context_set_errors context (errors context ++ errs)) ;;
      if return400ValidationError effective_config
      then exit (validationError (key_name el) (hd_error errs))
      else ret tt
  | None =>
      if return400ValidationError effective_config
      then exit (validationError (key_name el) None)
      else ret tt
  end.

Definition validate_fields : M unit :=
  match schema setup with
  | Some _ =>
      if 0 <? List.length toBeParsedList
      then for_of toBeParsedList validate_field
      else ret tt
  | None => ret tt
  end.

(** The response the [catch] of the pre-handler asks the host for: of the
    parsed message when [JSON.parse(e.message)] returns, of the plain
    message when it throws. *)
Definition message_response (message : string) (status : Z) : Response :=
  match JSON_parse message with
  | Some parsed => NextResponse_json parsed status
  | None => NextResponse_text message status
  end.

Definition preHandler_failed : Response :=
  NextResponse_json
    (JObj [("status", JStr "error");
           ("statusCode", JNum 400);
           ("message", JStr "Pre-handler failed.")])
    400.

(** The response the [catch] around the pre-handler's call asks for. *)
Definition catch_preHandler (e : Thrown) : Response :=
  match e with
  | ThrowApiHandlerError err =>
      message_response (Error_message err) (number_or (statusCode err) 400)
  | ThrowError message => message_response message 400
  | ThrowValue _ => preHandler_failed
  end.

(** The inner [try] and its [catch]: [JSON.parse] and [NextResponse.json]
    are both in the [try], and [new NextResponse] in the [catch] is not
    guarded. *)
Definition try_message_response (message : string) (status : Z) :
  Construction :=
  match JSON_parse message with
  | Some parsed =>
      match new_NextResponse_json parsed status with
      | Constructed r => Constructed r
      | Refused _ => new_NextResponse message status
      end
  | None => new_NextResponse message status
  end.

(** The [catch] around the pre-handler's call. *)
Definition try_catch_preHandler (e : Thrown) : Construction :=
  match e with
  | ThrowApiHandlerError err =>
      try_message_response (Error_message err)
        (number_or (statusCode err) 400)
  | ThrowError message => try_message_response message 400
  | ThrowValue _ =>
      new_NextResponse_json
        (JObj [("status", JStr "error");
               ("statusCode", JNum 400);
               ("message", JStr "Pre-handler failed.")])
        400
  end.

Definition run_preHandler : M unit :=
  match preHandler setup with
  | Some pre =>
      context <- get_context ;;
      emit (EvPreHandler context) ;;
      put_context (fst (pre context)) ;;
      match snd (pre context) with
      | Returned _ => ret tt
      | Threw e =>
          match try_catch_preHandler e with
          | Constructed r => exit r
          | Refused err => throw err
          end
      end
  | None => ret tt
  end.

Definition initial_world : World :=
  {| context := initial_context; trace := [] |}.

(** The request handler [apiHandler(setup, handler)] returns, run on one
    request: what it resolves to, and the events of the run. *)
Definition apiHandler : Outcome * list Event :=
  match (validate_fields ;; run_preHandler) initial_world with
  | (Return r, w) => (Responded r, trace w)
  | (Throw e, w) => (Rejected e, trace w)
  | (Next _, w) =>
      (FromHandler (handler (context w)), trace w ++ [EvHandler (context w)])
  end.

(** *** The loop, field by field

    [getData] and [safeParse] read the request only, so what a turn of the
    loop does to the context and to the trace is a function of its key. *)

(** The issues of a field whose validation does not succeed. *)
Definition failure (el : ValidationKeys) : option (list ZodIssue) :=
  match parse_field el (fst (getData el)) with
  | Some (SafeParseSuccess _) => None
  | Some (SafeParseError errs) => Some errs
  | None => Some []
  end.

(** The issues a field's turn appends to [context.errors]. *)
Definition reported (el : ValidationKeys) : list ZodIssue :=
  match failure el with
  | Some errs => errs
  | None => []
  end.

Definition fails (el : ValidationKeys) : bool :=
  match failure el with
  | Some _ => true
  | None => false
  end.

Definition field_events (el : ValidationKeys) : list Event :=
  EvGetData el :: map EvConsoleLog (snd (getData el))
    ++ match parse_field el (fst (getData el)) with
       | Some _ => [EvSafeParse el (fst (getData el))]
       | None => []
       end.

Definition apply_field (c : HandlerContext) (el : ValidationKeys) :
  HandlerContext :=
  match parse_field el (fst (getData el)) with
  | Some (SafeParseSuccess parsed_data) => context_set c el parsed_data
  | Some (SafeParseError errs) => context_set_errors c (errors c ++ errs)
  | None => c
  end.

(** The context once every field of [toBeParsedList] had its turn. *)
Definition validated_context : HandlerContext :=
  fold_left apply_field toBeParsedList initial_context.

(** The loop returns a 400: the config asks for it and a field fails. *)
Definition short_circuits : bool :=
  return400ValidationError effective_config && existsb fails toBeParsedList.

End ApiHandler.

(** ** Reading a trace *)

Definition extracted (t : list Event) : list ValidationKeys :=
  flat_map (fun ev => match ev with EvGetData k => [k] | _ => [] end) t.

Definition validated (t : list Event) : list ValidationKeys :=
  flat_map (fun ev => match ev with EvSafeParse k _ => [k] | _ => [] end) t.

Definition preHandler_calls (t : list Event) : list HandlerContext :=
  flat_map (fun ev => match ev with EvPreHandler c => [c] | _ => [] end) t.

Definition handler_calls (t : list Event) : list HandlerContext :=
  flat_map (fun ev => match ev with EvHandler c => [c] | _ => [] end) t.

(** ** The model of JSON above as a host

    An instance for the examples: it agrees with the host's [JSON.parse] and
    [JSON.stringify] on integers, strings of 8-bit code units, arrays and
    objects, which is what the examples use. *)

#[export] Instance json_host : JsonHost :=
  {| JSON_parse := Json.parse; JSON_stringify := Json.stringify |}.

Definition response_status (r : Response) : Z :=
  match r with
  | NextResponse_json _ status => status
  | NextResponse_text _ status => status
  end.

(** What a callback reads at [context[el]]. *)
Definition context_value (c : HandlerContext) (el : ValidationKeys) : JsValue :=
  VJson (JObj (context_get c el)).

(** ** Schemas and setups of the examples

    [z.object(shape)] for shapes of strings and numbers, with zod's default
    messages.  Unknown keys are stripped.  zod reads [data[key]] for every
    key of the shape.  The shapes are over the field names below; neither a
    response nor [Object.prototype] has a property of one of these names,
    so [data[key]] is the own property of a plain object, and [undefined]
    on a response, which is an object to zod. *)

Inductive ZodType : Type :=
  | z_string
  | z_number.

Inductive FieldName : Type :=
  | field_id
  | field_name.

Definition field_key (f : FieldName) : string :=
  match f with
  | field_id => "id"
  | field_name => "name"
  end.

Definition type_name (t : ZodType) : string :=
  match t with
  | z_string => "string"
  | z_number => "number"
  end.

Definition received (v : json) : string :=
  match v with
  | JNull => "null"
  | JBool _ => "boolean"
  | JNum _ => "number"
  | JStr _ => "string"
  | JArr _ => "array"
  | JObj _ => "object"
  end.

Definition has_type (t : ZodType) (v : json) : bool :=
  match t, v with
  | z_string, JStr _ => true
  | z_number, JNum _ => true
  | _, _ => false
  end.

(** The own property [key] of [o], if it has one. *)
Fixpoint obj_get (o : JsObject) (key : string) : option json :=
  match o with
  | [] => None
  | (k, v) :: rest => if String.eqb k key then Some v else obj_get rest key
  end.

Definition invalid_type (expected : string) (got : string)
  (at_path : list PathSegment) : ZodIssue :=
  {| message := String.append "Expected "
                  (String.append expected (String.append ", received " got));
     path := at_path |}.

Definition required (at_path : list PathSegment) : ZodIssue :=
  {| message := "Required"; path := at_path |}.

Fixpoint check_shape (shape : list (FieldName * ZodType)) (o : JsObject) :
  JsObject * list ZodIssue :=
  match shape with
  | [] => ([], [])
  | (field, t) :: rest =>
      let key := field_key field in
      let (data, issues) := check_shape rest o in
      match obj_get o key with
      | Some v =>
          if has_type t v then ((key, v) :: data, issues)
          else (data, invalid_type (type_name t) (received v) [PathKey key]
                        :: issues)
      | None => (data, required [PathKey key] :: issues)
      end
  end.

Definition z_object (shape : list (FieldName * ZodType)) : AnyZodObject :=
  {| safeParse := fun data =>
       let check o :=
         match check_shape shape o with
         | (parsed, []) => SafeParseSuccess parsed
         | (_, issue :: issues) => SafeParseError (issue :: issues)
         end in
       match data with
       | VJson (JObj o) => check o
       | VResponse _ => check []
       | VJson v => SafeParseError [invalid_type "object" (received v) []]
       | VUndefined => SafeParseError [required []]
       end |}.

(** A validator that rejects and reports no issue. *)
Definition reject_silently : AnyZodObject :=
  {| safeParse := fun _ => SafeParseError [] |}.

(** The object literal [{k1: s1, k2: s2, ...}]. *)
Definition schema_object (entries : list (ValidationKeys * AnyZodObject)) :
  SchemaObject :=
  {| own_keys := map fst entries;
     property := fun el =>
       match find (fun kv => key_eqb (fst kv) el) entries with
       | Some kv => Some (snd kv)
       | None => None
       end |}.

Definition get_request (query_entries : list (string * string)) : NextRequest :=
  {| searchParams := query_entries; body_text := ""; header_entries := [] |}.

Definition post_request (text : string) : NextRequest :=
  {| searchParams := []; body_text := text; header_entries := [] |}.

Definition no_params : NextFetchEvent := {| params := VUndefined |}.

Definition ok_response : Response :=
  NextResponse_json (JObj [("ok", JBool true)]) 200.

Definition ok_handler : Handler := fun _ => Returned (Some ok_response).

Definition void_handler : Handler := fun _ => Returned None.

Definition throwing_handler : Handler :=
  fun _ => Threw (ThrowError "handler failed").

(** A pre-handler that throws [e] and leaves the context as it is. *)
Definition throws (e : Thrown) : PreHandler := fun c => (c, Threw e).

Definition denied : JsObject := [("reason", JStr "denied")].

Definition no_400 : Config := {| return400ValidationError := false |}.

(** [{schema: {query: z.object({id: z.number()})}}] *)
Definition query_id_setup : Setup :=
  {| schema := Some (schema_object [(key_query, z_object [(field_id, z_number)])]);
     preHandler := None;
     config := None |}.

(** [{schema: {body: z.object({name: z.string()})}}] *)
Definition body_name_setup : Setup :=
  {| schema := Some (schema_object [(key_body, z_object [(field_name, z_string)])]);
     preHandler := None;
     config := None |}.

(** [{schema: {body: z.object({})}}] *)
Definition body_any_setup : Setup :=
  {| schema := Some (schema_object [(key_body, z_object [])]);
     preHandler := None;
     config := None |}.

(** [{schema: {query: ..., body: ...}}], the query written first. *)
Definition query_then_body_setup : Setup :=
  {| schema := Some (schema_object [(key_query, z_object [(field_id, z_string)]);
                                    (key_body, z_object [])]);
     preHandler := None;
     config := None |}.

(** The body schema of [body_name_setup], no 400 on a failed validation. *)
Definition lenient_setup (pre : option PreHandler) : Setup :=
  {| schema := Some (schema_object [(key_body, z_object [(field_name, z_string)])]);
     preHandler := pre;
     config := Some no_400 |}.

Definition silent_setup : Setup :=
  {| schema := Some (schema_object [(key_body, reject_silently)]);
     preHandler := None;
     config := Some no_400 |}.

(** No schema, and a pre-handler. *)
Definition preHandler_setup (pre : PreHandler) : Setup :=
  {| schema := None; preHandler := Some pre; config := None |}.

(** A pre-handler that assigns [context.body] and returns. *)
Definition assign_user : PreHandler :=
  fun c => (context_set c key_body [("user", JStr "u1")], Returned tt).

(** What a run wrote with [console.log]. *)
Definition console_output (t : list Event) : list string :=
  flat_map (fun ev => match ev with EvConsoleLog s => [s] | _ => [] end) t.

(** The setup with another [config]. *)
Definition with_config (setup : Setup) (c : option Config) : Setup :=
  {| schema := schema setup; preHandler := preHandler setup; config := c |}.

(** * Properties *)

(** Induction over [json] with the hypotheses for the nested lists. *)
Lemma json_nested_ind (P : json -> Prop)
  (Hnull : P JNull)
  (Hbool : forall b, P (JBool b))
  (Hnum : forall n, P (JNum n))
  (Hstr : forall s, P (JStr s))
  (Harr : forall items, Forall P items -> P (JArr items))
  (Hobj : forall props, Forall (fun kv => P (snd kv)) props -> P (JObj props)) :
  forall v, P v.
Proof.
  fix IH 1.
  intros [ | b | n | s | items | props ].
  - exact Hnull.
  - apply Hbool.
  - apply Hnum.
  - apply Hstr.
  - apply Harr. induction items as [ | x xs IHxs ]; constructor.
    + apply IH.
    + exact IHxs.
  - apply Hobj. induction props as [ | [k x] ps IHps ]; constructor.
    + apply IH.
    + exact IHps.
Qed.


Module JsonFacts.
Import Json.

Ltac each_ascii c :=
  destruct c as [[] [] [] [] [] [] [] []].

(** ** Numbers *)

Lemma read_uint_digits (u : Decimal.uint) (rest : text) :
  no_digit_ahead rest = true ->
  read_uint (list_ascii_of_string (NilEmpty.string_of_uint u) ++ rest)
  = (u, rest).
Proof.
  intros Hrest.
  induction u as [ | u IH | u IH | u IH | u IH | u IH | u IH | u IH | u IH
                   | u IH | u IH ];
    try (cbn [NilEmpty.string_of_uint list_ascii_of_string app read_uint];
         rewrite IH; reflexivity).
  cbn [NilEmpty.string_of_uint list_ascii_of_string app].
  destruct rest as [ | c r ]; [ reflexivity | ].
  cbn [read_uint]. cbn [no_digit_ahead] in Hrest.
  apply negb_true_iff in Hrest. rewrite Hrest. reflexivity.
Qed.

Lemma unorm_to_uint (p : positive) :
  Decimal.unorm (Pos.to_uint p) = Pos.to_uint p.
Proof.
  rewrite <- DecimalPos.Unsigned.to_of.
  rewrite DecimalPos.Unsigned.of_to. reflexivity.
Qed.

Lemma uint_beq_refl (u : Decimal.uint) : Decimal.uint_beq u u = true.
Proof. apply Decimal.internal_uint_dec_lb. reflexivity. Qed.

Lemma to_uint_nonnil (p : positive) : Pos.to_uint p <> Decimal.Nil.
Proof.
  rewrite <- unorm_to_uint. apply unorm_nonnil.
Qed.

(** The digits of a decimal that is not [Nil] start with a digit. *)
Lemma digits_head (u : Decimal.uint) :
  u <> Decimal.Nil ->
  exists c r,
    list_ascii_of_string (NilEmpty.string_of_uint u) = c :: r
    /\ is_digit c = true /\ Ascii.eqb c "-" = false.
Proof.
  intros Hu. destruct u; [ congruence | .. ];
    cbn [NilEmpty.string_of_uint list_ascii_of_string];
    eexists; eexists; (split; [ reflexivity | split; reflexivity ]).
Qed.

Lemma nilzero_nonnil (u : Decimal.uint) :
  u <> Decimal.Nil ->
  NilZero.string_of_uint u = NilEmpty.string_of_uint u.
Proof. destruct u; congruence || reflexivity. Qed.

Lemma parse_number_uint (u : Decimal.uint) (rest : text) :
  u <> Decimal.Nil -> Decimal.unorm u = u ->
  no_digit_ahead rest = true ->
  parse_number (list_ascii_of_string (NilZero.string_of_uint u) ++ rest)
  = Some (Z.of_uint u, rest)
  /\ parse_number
       ("-"%char :: list_ascii_of_string (NilZero.string_of_uint u) ++ rest)
     = Some ((- Z.of_uint u)%Z, rest).
Proof.
  intros Hu Hnorm Hrest.
  rewrite (nilzero_nonnil u Hu).
  pose proof (read_uint_digits u rest Hrest) as Hread.
  destruct (digits_head u Hu) as (c & r & Hcr & Hdig & Hminus).
  unfold parse_number. split.
  - rewrite Hcr in *. cbn [app]. rewrite Hminus.
    cbn [app] in Hread. rewrite Hread.
    rewrite Hnorm, uint_beq_refl. reflexivity.
  - change (Ascii.eqb "-" "-") with true. cbv iota.
    rewrite Hread, Hnorm, uint_beq_refl. reflexivity.
Qed.

Lemma parse_print_number (n : Z) (rest : text) :
  no_digit_ahead rest = true ->
  parse_number (print_number n ++ rest) = Some (n, rest).
Proof.
  intros Hrest. unfold print_number.
  destruct n as [ | p | p ].
  - destruct (parse_number_uint (Decimal.D0 Decimal.Nil) rest) as [H0 _];
      [ discriminate | reflexivity | assumption | ].
    exact H0.
  - destruct (parse_number_uint (Pos.to_uint p) rest) as [Hp _];
      [ apply to_uint_nonnil | apply unorm_to_uint | assumption | ].
    cbn [Z.to_int NilZero.string_of_int]. rewrite Hp.
    pose proof (DecimalZ.of_to (Z.pos p)) as Hz. cbn in Hz. rewrite Hz.
    reflexivity.
  - destruct (parse_number_uint (Pos.to_uint p) rest) as [_ Hp];
      [ apply to_uint_nonnil | apply unorm_to_uint | assumption | ].
    cbn [Z.to_int NilZero.string_of_int list_ascii_of_string app].
    rewrite Hp.
    pose proof (DecimalZ.of_to (Z.neg p)) as Hz. cbn in Hz. rewrite Hz.
    reflexivity.
Qed.

(** A printed number starts a value and is not empty. *)
Lemma print_number_head (n : Z) :
  exists c r, print_number n = c :: r
              /\ (is_digit c || Ascii.eqb c "-") = true.
Proof.
  unfold print_number. destruct n as [ | p | p ].
  - eexists; eexists; split; reflexivity.
  - cbn [Z.to_int NilZero.string_of_int].
    rewrite (nilzero_nonnil _ (to_uint_nonnil p)).
    destruct (digits_head _ (to_uint_nonnil p)) as (c & r & Hcr & Hdig & _).
    exists c, r. rewrite Hdig. split; [ assumption | reflexivity ].
  - eexists; eexists; split; reflexivity.
Qed.

(** ** Strings *)

Lemma parse_escape_char (c : ascii) (r : text) :
  parse_chars (escape_char c ++ r) = cons_char c (parse_chars r).
Proof. each_ascii c; reflexivity. Qed.

Lemma parse_escape (s : string) (rest : text) :
  parse_chars (escape s ++ dquote :: rest) = Some (s, rest).
Proof.
  induction s as [ | c s IH ].
  - reflexivity.
  - cbn [escape]. rewrite <- app_assoc, parse_escape_char, IH. reflexivity.
Qed.

(** ** One step of the parser, on each shape of input *)

Lemma value_start_not_ws (c : ascii) :
  value_start c = true ->
  is_ws c = false /\ Ascii.eqb c "]" = false /\ Ascii.eqb c "}" = false.
Proof.
  intros H. each_ascii c; cbv in H; try discriminate H; repeat split.
Qed.

Lemma pv_number (f : nat) (c : ascii) (r : text) :
  (is_digit c || Ascii.eqb c "-") = true ->
  parse_value (S f) (c :: r)
  = match parse_number (c :: r) with
    | Some (n, rest) => Some (JNum n, rest)
    | None => None
    end.
Proof.
  intros H. each_ascii c; cbv in H; try discriminate H; reflexivity.
Qed.

Lemma pv_string (f : nat) (r : text) :
  parse_value (S f) (dquote :: r)
  = match parse_chars r with
    | Some (str, rest) => Some (JStr str, rest)
    | None => None
    end.
Proof. reflexivity. Qed.

Lemma pv_array_empty (f : nat) (r : text) :
  parse_value (S f) ("["%char :: "]"%char :: r) = Some (JArr [], r).
Proof. reflexivity. Qed.

Lemma pv_array (f : nat) (c : ascii) (r : text) :
  value_start c = true ->
  parse_value (S f) ("["%char :: c :: r)
  = match parse_elements f (c :: r) with
    | Some (items, rest) => Some (JArr items, rest)
    | None => None
    end.
Proof.
  intros H. each_ascii c; cbv in H; try discriminate H; reflexivity.
Qed.

Lemma pv_object_empty (f : nat) (r : text) :
  parse_value (S f) ("{"%char :: "}"%char :: r) = Some (JObj [], r).
Proof. reflexivity. Qed.

Lemma pv_object (f : nat) (r : text) :
  parse_value (S f) ("{"%char :: dquote :: r)
  = match parse_members f (dquote :: r) with
    | Some (props, rest) => Some (JObj (obj_of_entries props), rest)
    | None => None
    end.
Proof. reflexivity. Qed.

Lemma pe_more (f : nat) (s : text) (v : json) (r : text) :
  parse_value f s = Some (v, ","%char :: r) ->
  parse_elements (S f) s
  = match parse_elements f r with
    | Some (items, rest) => Some (v :: items, rest)
    | None => None
    end.
Proof. intros H. cbn [parse_elements]. rewrite H. reflexivity. Qed.

Lemma pe_last (f : nat) (s : text) (v : json) (r : text) :
  parse_value f s = Some (v, "]"%char :: r) ->
  parse_elements (S f) s = Some ([v], r).
Proof. intros H. cbn [parse_elements]. rewrite H. reflexivity. Qed.

Lemma pm_more (f : nat) (r0 r2 r4 : text) (key : string) (v : json) :
  parse_chars r0 = Some (key, ":"%char :: r2) ->
  parse_value f r2 = Some (v, ","%char :: r4) ->
  parse_members (S f) (dquote :: r0)
  = match parse_members f r4 with
    | Some (props, rest) => Some ((key, v) :: props, rest)
    | None => None
    end.
Proof.
  intros Hk Hv. cbn [parse_members].
  change (skip_ws (dquote :: r0)) with (dquote :: r0).
  change (Ascii.eqb dquote dquote) with true. cbv iota.
  rewrite Hk.
  change (skip_ws (":"%char :: r2)) with (":"%char :: r2).
  change (Ascii.eqb ":" ":") with true. cbv iota.
  rewrite Hv. reflexivity.
Qed.

Lemma pm_last (f : nat) (r0 r2 r4 : text) (key : string) (v : json) :
  parse_chars r0 = Some (key, ":"%char :: r2) ->
  parse_value f r2 = Some (v, "}"%char :: r4) ->
  parse_members (S f) (dquote :: r0) = Some ([(key, v)], r4).
Proof.
  intros Hk Hv. cbn [parse_members].
  change (skip_ws (dquote :: r0)) with (dquote :: r0).
  change (Ascii.eqb dquote dquote) with true. cbv iota.
  rewrite Hk.
  change (skip_ws (":"%char :: r2)) with (":"%char :: r2).
  change (Ascii.eqb ":" ":") with true. cbv iota.
  rewrite Hv. reflexivity.
Qed.

(** ** Objects without a repeated property name *)

Lemma enumeration_ordered_app_l (a b : list string) :
  enumeration_ordered (a ++ b) = true -> enumeration_ordered a = true.
Proof.
  induction a as [ | k a IH ]; intros H; [ reflexivity | ].
  cbn [app enumeration_ordered] in *.
  apply andb_true_iff in H. destruct H as [Hk Ha].
  rewrite forallb_app in Hk. apply andb_true_iff in Hk.
  destruct Hk as [Hk _]. rewrite Hk, (IH Ha). reflexivity.
Qed.

Lemma obj_insert_last (key : string) (val : json) (obj : JsObject) :
  enumeration_ordered (map fst obj ++ [key]) = true ->
  obj_insert key val obj = obj ++ [(key, val)].
Proof.
  induction obj as [ | [k v] rest IH ]; intros Hord; [ reflexivity | ].
  cbn [map fst app enumeration_ordered] in Hord.
  apply andb_true_iff in Hord. destruct Hord as [Hk Hrest].
  rewrite forallb_app in Hk. apply andb_true_iff in Hk.
  destruct Hk as [_ Hk]. cbn [forallb] in Hk.
  rewrite andb_true_r in Hk. apply negb_true_iff in Hk.
  cbn [obj_insert app]. rewrite Hk, (IH Hrest). reflexivity.
Qed.

Lemma obj_define_fresh (key : string) (val : json) (obj : JsObject) :
  has_own obj key = false ->
  enumeration_ordered (map fst obj ++ [key]) = true ->
  obj_define key val obj = obj ++ [(key, val)].
Proof.
  intros Hfresh Hord. unfold obj_define. rewrite Hfresh.
  apply obj_insert_last. exact Hord.
Qed.

Lemma fold_obj_define (entries : list (string * json)) :
  forall acc : JsObject,
    nodup_keys (map fst entries) = true ->
    (forall k, In k (map fst entries) -> has_own acc k = false) ->
    enumeration_ordered (map fst acc ++ map fst entries) = true ->
    fold_left (fun obj kv => obj_define (fst kv) (snd kv) obj) entries acc
    = acc ++ entries.
Proof.
  induction entries as [ | [k v] rest IH ]; intros acc Hnodup Hdisj Hord.
  - cbn [fold_left]. rewrite List.app_nil_r. reflexivity.
  - cbn [map fst nodup_keys] in Hnodup.
    apply andb_true_iff in Hnodup. destruct Hnodup as [Hk Hrest].
    apply negb_true_iff in Hk.
    cbn [fold_left fst snd]. cbn [map fst] in Hord.
    rewrite obj_define_fresh.
    + rewrite IH.
      * rewrite <- app_assoc. reflexivity.
      * exact Hrest.
      * intros k' Hin. unfold has_own. rewrite map_app, existsb_app.
        fold (has_own acc k'). rewrite Hdisj by (right; exact Hin).
        cbn [map fst existsb orb]. rewrite orb_false_r.
        destruct (String.eqb_spec k' k) as [Heq | Hne]; [ | reflexivity ].
        subst k'.
        assert (Hex : existsb (String.eqb k) (map fst rest) = true).
        { apply existsb_exists. exists k. split; [ exact Hin | ].
          apply String.eqb_refl. }
        congruence.
      * rewrite map_app. cbn [map fst]. rewrite <- app_assoc. exact Hord.
    + apply Hdisj. left. reflexivity.
    + apply enumeration_ordered_app_l with (b := map fst rest).
      rewrite <- app_assoc. exact Hord.
Qed.

Lemma obj_of_entries_wf (props : list (string * json)) :
  nodup_keys (map fst props) = true ->
  enumeration_ordered (map fst props) = true ->
  obj_of_entries props = props.
Proof.
  intros Hnodup Hord. unfold obj_of_entries.
  rewrite fold_obj_define; auto.
Qed.

(** ** Parsing a printed value *)

Lemma print_head (v : json) :
  exists c r, print v = c :: r /\ value_start c = true.
Proof.
  destruct v as [ | [ | ] | n | s | items | props ];
    try (eexists; eexists; split; reflexivity).
  destruct (print_number_head n) as (c & r & Hcr & Hc).
  exists c, r. split; [ exact Hcr | ].
  unfold value_start. rewrite Hc. reflexivity.
Qed.

Lemma join_cons_tail (p : text) (ps : list text) (tail : text) :
  join (p :: ps) ++ tail
  = p ++ match ps with
         | [] => tail
         | _ :: _ => ","%char :: join ps ++ tail
         end.
Proof.
  destruct ps as [ | q qs ]; [ reflexivity | ].
  cbn [join]. rewrite <- !app_assoc. reflexivity.
Qed.

Lemma parse_print_elements (items : list json) :
  Forall roundtrips items -> forallb wf_json items = true -> items <> [] ->
  forall (f : nat) (rest : text),
    fold_right (fun x acc => S (jsize x + acc)) 0 items <= f ->
    parse_elements f (join (map print items) ++ "]"%char :: rest)
    = Some (items, rest).
Proof.
  induction items as [ | x xs IH ]; intros HP Hwf Hne f rest Hf;
    [ congruence | ].
  inversion HP as [ | ? ? Hx Hxs ]; subst.
  cbn [forallb] in Hwf. apply andb_true_iff in Hwf. destruct Hwf as [Hwx Hwxs].
  cbn [fold_right] in Hf. destruct f as [ | f ]; [ lia | ].
  cbn [map]. rewrite join_cons_tail.
  destruct xs as [ | y ys ].
  - cbn [map]. apply pe_last. apply Hx; [ assumption | lia | reflexivity ].
  - cbn [map].
    rewrite (pe_more f _ x (join (map print (y :: ys)) ++ "]"%char :: rest)).
    + rewrite IH; [ reflexivity | assumption | assumption | discriminate | lia ].
    + apply Hx; [ assumption | lia | reflexivity ].
Qed.

Lemma print_object (props : list (string * json)) :
  print (JObj props)
  = "{"%char :: join (map print_member props) ++ ["}"%char].
Proof. reflexivity. Qed.

Lemma print_member_tail (k : string) (v : json) (tail : text) :
  print_member (k, v) ++ tail
  = dquote :: escape k ++ dquote :: ":"%char :: print v ++ tail.
Proof.
  unfold print_member, print_string. cbn [fst snd app].
  rewrite <- !app_assoc. reflexivity.
Qed.

Lemma parse_print_members (props : list (string * json)) :
  Forall (fun kv => roundtrips (snd kv)) props ->
  forallb (fun kv => wf_json (snd kv)) props = true -> props <> [] ->
  forall (f : nat) (rest : text),
    fold_right (fun kv acc => S (jsize (snd kv) + acc)) 0 props <= f ->
    parse_members f (join (map print_member props) ++ "}"%char :: rest)
    = Some (props, rest).
Proof.
  induction props as [ | [k x] ps IH ]; intros HP Hwf Hne f rest Hf;
    [ congruence | ].
  inversion HP as [ | ? ? Hx Hxs ]; subst. cbn [snd] in Hx.
  cbn [forallb snd] in Hwf. apply andb_true_iff in Hwf.
  destruct Hwf as [Hwx Hwxs].
  cbn [fold_right snd] in Hf. destruct f as [ | f ]; [ lia | ].
  cbn [map]. rewrite join_cons_tail, print_member_tail.
  destruct ps as [ | q qs ].
  - cbn [map]. eapply pm_last.
    + apply parse_escape.
    + apply Hx; [ assumption | lia | reflexivity ].
  - cbn [map].
    set (more := join (print_member q :: map print_member qs)
                   ++ "}"%char :: rest).
    rewrite (pm_more f _ (print x ++ ","%char :: more) more k x).
    + unfold more. change (print_member q :: map print_member qs)
        with (map print_member (q :: qs)).
      rewrite IH; [ reflexivity | assumption | assumption | discriminate | lia ].
    + apply parse_escape.
    + apply Hx; [ assumption | lia | reflexivity ].
Qed.

Lemma join_head (p : text) (ps : list text) (tail : text) (c : ascii) (r : text) :
  p = c :: r -> exists r', join (p :: ps) ++ tail = c :: r'.
Proof.
  intros ->. rewrite join_cons_tail. cbn [app]. eexists. reflexivity.
Qed.

Theorem parse_print_value (v : json) : roundtrips v.
Proof.
  induction v as [ | b | n | s | items IH | props IH ] using json_nested_ind;
    intros Hwf fuel rest Hfuel Hrest;
    (destruct fuel as [ | f ]; [ cbn [jsize] in Hfuel; lia | ]).
  - reflexivity.
  - destruct b; reflexivity.
  - cbn [print].
    destruct (print_number_head n) as (c & r & Hcr & Hc).
    pose proof (parse_print_number n rest Hrest) as Hn.
    rewrite Hcr in *. cbn [app] in *.
    rewrite (pv_number f c _ Hc), Hn. reflexivity.
  - cbn [print]. unfold print_string. cbn [app]. rewrite <- app_assoc.
    cbn [app]. rewrite pv_string, parse_escape. reflexivity.
  - cbn [print app]. rewrite <- app_assoc. cbn [app].
    destruct items as [ | x xs ].
    + reflexivity.
    + cbn [wf_json] in Hwf. cbn [jsize] in Hfuel.
      pose proof (parse_print_elements (x :: xs) IH Hwf ltac:(discriminate)
                    f rest ltac:(lia)) as He.
      destruct (print_head x) as (c & r & Hcr & Hc).
      destruct (join_head (print x) (map print xs) ("]"%char :: rest) c r Hcr)
        as (r' & Hj).
      cbn [map] in He |- *. rewrite Hj in He |- *.
      rewrite (pv_array f c r' Hc), He. reflexivity.
  - rewrite print_object. cbn [app]. rewrite <- app_assoc. cbn [app].
    destruct props as [ | [k x] ps ].
    + reflexivity.
    + cbn [wf_json] in Hwf. apply andb_true_iff in Hwf.
      destruct Hwf as [Hkeys Hwf]. apply andb_true_iff in Hkeys.
      destruct Hkeys as [Hkeys Hord]. cbn [jsize] in Hfuel.
      pose proof (parse_print_members ((k, x) :: ps) IH Hwf ltac:(discriminate)
                    f rest ltac:(lia)) as He.
      cbn [map] in He |- *.
      rewrite join_cons_tail, print_member_tail in He |- *.
      rewrite pv_object, He, obj_of_entries_wf by assumption.
      reflexivity.
Qed.

(** The fuel [parse_text] gives is enough for a printed value. *)
Lemma jsize_print (v : json) : jsize v <= List.length (print v).
Proof.
  induction v as [ | b | n | s | items IH | props IH ] using json_nested_ind.
  - cbn. lia.
  - destruct b; cbn; lia.
  - destruct (print_number_head n) as (c & r & Hcr & _).
    cbn [print jsize]. rewrite Hcr. cbn [List.length]. lia.
  - cbn [print jsize]. unfold print_string. cbn [List.length]. lia.
  - cbn [print jsize List.length]. rewrite length_app. cbn [List.length].
    assert (H : fold_right (fun x acc => S (jsize x + acc)) 0 items
                <= S (List.length (join (map print items)))).
    { induction IH as [ | x xs Hx Hxs IHxs ]; [ cbn; lia | ].
      cbn [fold_right map].
      destruct xs as [ | y ys ].
      - cbn [fold_right map join]. lia.
      - change (join (print x :: map print (y :: ys)))
          with (print x ++ comma ++ join (map print (y :: ys))).
        rewrite !length_app. cbn [comma List.length]. lia. }
    lia.
  - rewrite print_object. cbn [jsize List.length]. rewrite length_app.
    cbn [List.length].
    assert (H : fold_right (fun kv acc => S (jsize (snd kv) + acc)) 0 props
                <= S (List.length (join (map print_member props)))).
    { induction IH as [ | [k x] xs Hx Hxs IHxs ]; [ cbn; lia | ].
      cbn [fold_right map snd] in *.
      assert (Hm : jsize x <= List.length (print_member (k, x))).
      { unfold print_member. cbn [fst snd]. rewrite length_app.
        cbn [List.length]. lia. }
      destruct xs as [ | y ys ].
      - cbn [fold_right map join]. lia.
      - change (join (print_member (k, x) :: map print_member (y :: ys)))
          with (print_member (k, x) ++ comma
                  ++ join (map print_member (y :: ys))).
        rewrite !length_app. cbn [comma List.length]. lia. }
    lia.
Qed.

(** [JSON.parse (JSON.stringify v)] is [v]. *)
Theorem parse_stringify (v : json) :
  wf_json v = true -> parse (stringify v) = Some v.
Proof.
  intros Hwf. unfold parse, stringify.
  rewrite list_ascii_of_string_of_list_ascii. unfold parse_text.
  pose proof (parse_print_value v Hwf (S (List.length (print v))) []) as H.
  rewrite List.app_nil_r in H.
  rewrite H; [ reflexivity | | reflexivity ].
  pose proof (jsize_print v). lia.
Qed.

End JsonFacts.

(** ** The adapter's pipeline *)

Section Pipeline.

Context {host : JsonHost}.
Variable setup : Setup.
Variable request : NextRequest.
Variable event : NextFetchEvent.

Local Abbreviation return400 :=
  (return400ValidationError (effective_config setup)).
Local Abbreviation turn := (validate_field setup request event).
Local Abbreviation after := (apply_field setup request event).
Local Abbreviation events := (field_events setup request event).

Lemma emit_all_run (evs : list Event) (w : World) :
  emit_all evs w
  = (Next tt, {| context := context w; trace := trace w ++ evs |}).
Proof.
  revert w. induction evs as [ | ev evs IH ]; intros w.
  - cbn. rewrite List.app_nil_r. destruct w; reflexivity.
  - cbn [emit_all]. unfold bind, emit. rewrite IH. cbn.
    rewrite <- app_assoc. reflexivity.
Qed.

(** One turn of the loop: the context and the trace after it, and whether
    it returns. *)
Lemma validate_field_run (el : ValidationKeys) (w : World) :
  turn el w
  = (match failure setup request event el with
     | Some errs =>
         if return400
         then Return (validationError (key_name el) (hd_error errs))
         else Next tt
     | None => Next tt
     end,
     {| context := after (context w) el; trace := trace w ++ events el |}).
Proof.
  unfold validate_field, failure, apply_field, field_events.
  unfold bind at 1. unfold emit at 1. unfold bind at 1.
  rewrite emit_all_run. cbn [context trace].
  unfold bind at 1. unfold get_context at 1. cbn [context trace].
  destruct (parse_field setup el (fst (getData setup request event el)))
    as [ [ data | errs ] | ].
  - unfold bind, emit, put_context. cbn.
    rewrite <- !app_assoc. reflexivity.
  - unfold bind at 1. unfold emit at 1. unfold bind at 1.
    unfold put_context at 1. cbn [context trace].
    destruct (return400ValidationError (effective_config setup));
      unfold exit, ret; rewrite <- !app_assoc; reflexivity.
  - destruct (return400ValidationError (effective_config setup));
      unfold exit, ret; rewrite <- !app_assoc, List.app_nil_r; reflexivity.
Qed.

(** The loop runs to its end when no turn returns. *)
Lemma for_of_continues (l : list ValidationKeys) :
  forall w : World,
    (return400 = true ->
     forall el, In el l -> fails setup request event el = false) ->
    for_of l turn w
    = (Next tt,
       {| context := fold_left after l (context w);
          trace := trace w ++ flat_map events l |}).
Proof.
  induction l as [ | el l IH ]; intros w Hok.
  - cbn. rewrite List.app_nil_r. destruct w; reflexivity.
  - cbn [for_of]. unfold bind at 1. rewrite validate_field_run.
    assert (Hel : match failure setup request event el with
                  | Some errs =>
                      if return400
                      then Return (validationError (key_name el) (hd_error errs))
                      else Next tt
                  | None => @Next unit tt
                  end = Next tt).
    { destruct return400 eqn:Hcfg.
      - specialize (Hok eq_refl el (or_introl eq_refl)).
        unfold fails in Hok.
        destruct (failure setup request event el); [ discriminate | reflexivity ].
      - destruct (failure setup request event el); reflexivity. }
    rewrite Hel. rewrite IH.
    + cbn [context trace fold_left flat_map]. rewrite <- app_assoc.
      reflexivity.
    + intros Hcfg k Hk. apply Hok; [ exact Hcfg | right; exact Hk ].
Qed.

(** The loop returns at the first field that fails, when the config asks
    for the 400. *)
Lemma for_of_returns (pre post : list ValidationKeys) (el : ValidationKeys)
  (errs : list ZodIssue) (w : World) :
  return400 = true ->
  (forall k, In k pre -> fails setup request event k = false) ->
  failure setup request event el = Some errs ->
  for_of (pre ++ el :: post) turn w
  = (Return (validationError (key_name el) (hd_error errs)),
     {| context := after (fold_left after pre (context w)) el;
        trace := trace w ++ flat_map events (pre ++ [el]) |}).
Proof.
  intros Hcfg. revert w.
  induction pre as [ | k pre IH ]; intros w Hpre Hel.
  - cbn [app for_of]. unfold bind at 1. rewrite validate_field_run.
    rewrite Hel, Hcfg. cbn [fold_left flat_map]. rewrite List.app_nil_r.
    reflexivity.
  - cbn [app for_of]. unfold bind at 1. rewrite validate_field_run.
    pose proof (Hpre k (or_introl eq_refl)) as Hk. unfold fails in Hk.
    destruct (failure setup request event k); [ discriminate | ].
    rewrite IH.
    + cbn [context trace fold_left flat_map app]. rewrite <- app_assoc.
      reflexivity.
    + intros k' Hk'. apply Hpre. right. exact Hk'.
    + exact Hel.
Qed.

Lemma validate_fields_for_of (w : World) :
  validate_fields setup request event w
  = for_of (toBeParsedList setup) turn w.
Proof.
  unfold validate_fields, toBeParsedList.
  destruct (schema setup) as [ o | ]; [ | reflexivity ].
  destruct (map fst _) as [ | k l ]; reflexivity.
Qed.

(** *** Reading the trace of the loop *)

Lemma extracted_app (t u : list Event) :
  extracted (t ++ u) = extracted t ++ extracted u.
Proof. apply flat_map_app. Qed.

Lemma validated_app (t u : list Event) :
  validated (t ++ u) = validated t ++ validated u.
Proof. apply flat_map_app. Qed.

Lemma preHandler_calls_app (t u : list Event) :
  preHandler_calls (t ++ u) = preHandler_calls t ++ preHandler_calls u.
Proof. apply flat_map_app. Qed.

Lemma handler_calls_app (t u : list Event) :
  handler_calls (t ++ u) = handler_calls t ++ handler_calls u.
Proof. apply flat_map_app. Qed.

Lemma console_events (texts : list string) :
  extracted (map EvConsoleLog texts) = []
  /\ validated (map EvConsoleLog texts) = []
  /\ preHandler_calls (map EvConsoleLog texts) = []
  /\ handler_calls (map EvConsoleLog texts) = [].
Proof.
  induction texts as [ | x texts (He & Hv & Hp & Hh) ]; cbn; auto.
Qed.

Lemma field_events_read (el : ValidationKeys) :
  extracted (events el) = [el]
  /\ validated (events el)
     = match parse_field setup el (fst (getData setup request event el)) with
       | Some _ => [el]
       | None => []
       end
  /\ preHandler_calls (events el) = []
  /\ handler_calls (events el) = [].
Proof.
  unfold field_events.
  destruct (console_events (snd (getData setup request event el)))
    as (He & Hv & Hp & Hh).
  change (EvGetData el :: ?l) with ([EvGetData el] ++ l).
  rewrite !extracted_app, !validated_app, !preHandler_calls_app,
    !handler_calls_app, He, Hv, Hp, Hh.
  destruct (parse_field setup el _); cbn; auto.
Qed.

Lemma in_toBeParsedList (el : ValidationKeys) :
  In el (toBeParsedList setup) ->
  exists o sch, schema setup = Some o /\ property o el = Some sch.
Proof.
  unfold toBeParsedList, Object_entries.
  destruct (schema setup) as [ o | ]; [ | intros [] ].
  intros Hin. apply in_map_iff in Hin. destruct Hin as ([k val] & Hk & Hin).
  cbn [fst] in Hk. subst k.
  apply filter_In in Hin. destruct Hin as [Hin Hval]. cbn [snd] in Hval.
  apply in_map_iff in Hin. destruct Hin as (k & Hkv & _).
  injection Hkv as Hk Hv. subst k.
  destruct val as [ sch | ]; [ | discriminate ].
  exists o, sch. auto.
Qed.

Lemma loop_events_read (l : list ValidationKeys) :
  extracted (flat_map events l) = l
  /\ ((forall el, In el l -> In el (toBeParsedList setup)) ->
      validated (flat_map events l) = l)
  /\ preHandler_calls (flat_map events l) = []
  /\ handler_calls (flat_map events l) = [].
Proof.
  induction l as [ | el l (He & Hv & Hp & Hh) ].
  - cbn. auto.
  - cbn [flat_map].
    rewrite extracted_app, validated_app, preHandler_calls_app,
      handler_calls_app.
    destruct (field_events_read el) as (He1 & Hv1 & Hp1 & Hh1).
    rewrite He, Hp, Hh, He1, Hp1, Hh1, Hv1.
    repeat split; try reflexivity.
    intros Hin. rewrite Hv by (intros k Hk; apply Hin; right; exact Hk).
    destruct (in_toBeParsedList el (Hin el (or_introl eq_refl)))
      as (o & sch & Ho & Hsch).
    unfold parse_field. rewrite Ho, Hsch. reflexivity.
Qed.

(** *** The context after the loop *)

Lemma context_get_set (c : HandlerContext) (k el : ValidationKeys)
  (data : JsObject) :
  context_get (context_set c k data) el
  = if key_eqb k el then data else context_get c el.
Proof. destruct k, el; reflexivity. Qed.

Lemma key_eqb_eq (a b : ValidationKeys) : key_eqb a b = true <-> a = b.
Proof. destruct a, b; cbn; split; congruence. Qed.

(** A turn leaves a field alone unless it is the turn of that field and its
    validation succeeds. *)
Lemma apply_field_get (c : HandlerContext) (k el : ValidationKeys) :
  k <> el \/ fails setup request event el = true ->
  context_get (after c k) el = context_get c el.
Proof.
  intros H. unfold apply_field.
  destruct (parse_field setup k (fst (getData setup request event k)))
    as [ [ data | errs ] | ] eqn:Hk; try reflexivity.
  rewrite context_get_set.
  destruct (key_eqb k el) eqn:Heq; [ | reflexivity ].
  apply key_eqb_eq in Heq. subst el.
  destruct H as [ H | H ]; [ congruence | ].
  unfold fails, failure in H. rewrite Hk in H. discriminate.
Qed.

Lemma fold_apply_field_get (l : list ValidationKeys) (el : ValidationKeys) :
  forall c : HandlerContext,
    ~ In el l \/ fails setup request event el = true ->
    context_get (fold_left after l c) el = context_get c el.
Proof.
  induction l as [ | k l IH ]; intros c H; [ reflexivity | ].
  cbn [fold_left]. rewrite IH.
  - apply apply_field_get. destruct H as [ H | H ]; [ left | right; exact H ].
    intros ->. apply H. left. reflexivity.
  - destruct H as [ H | H ]; [ left | right; exact H ].
    intros Hin. apply H. right. exact Hin.
Qed.

Lemma apply_field_errors (c : HandlerContext) (k : ValidationKeys) :
  errors (after c k) = errors c ++ reported setup request event k.
Proof.
  unfold apply_field, reported, failure.
  destruct (parse_field setup k (fst (getData setup request event k)))
    as [ [ data | errs ] | ]; cbn; try rewrite List.app_nil_r; reflexivity.
Qed.

Lemma fold_apply_field_errors (l : list ValidationKeys) :
  forall c : HandlerContext,
    errors (fold_left after l c)
    = errors c ++ flat_map (reported setup request event) l.
Proof.
  induction l as [ | k l IH ]; intros c.
  - cbn. rewrite List.app_nil_r. reflexivity.
  - cbn [fold_left flat_map]. rewrite IH, apply_field_errors, app_assoc.
    reflexivity.
Qed.

(** *** What the [catch] of the pre-handler builds *)

Lemma try_message_response_accepts (text : string) (status : Z) :
  try_message_response text status
  = if Response_accepts status
    then Constructed (message_response text status)
    else Refused (InvalidStatus status).
Proof.
  unfold try_message_response, message_response, new_NextResponse_json,
    new_NextResponse.
  destruct (JSON_parse text); destruct (Response_accepts status); reflexivity.
Qed.

Lemma response_status_message (text : string) (status : Z) :
  response_status (message_response text status) = status.
Proof.
  unfold message_response. destruct (JSON_parse text); reflexivity.
Qed.

(** The host builds what the [catch] asks for, or refuses its status. *)
Lemma try_catch_preHandler_accepts (e : Thrown) :
  try_catch_preHandler e
  = if Response_accepts (response_status (catch_preHandler e))
    then Constructed (catch_preHandler e)
    else Refused (InvalidStatus (response_status (catch_preHandler e))).
Proof.
  destruct e as [ err | text | v ]; cbn [try_catch_preHandler catch_preHandler].
  - rewrite try_message_response_accepts, response_status_message.
    reflexivity.
  - rewrite try_message_response_accepts, response_status_message.
    reflexivity.
  - reflexivity.
Qed.

(** A response from the [catch] is the one it asked the host for. *)
Lemma catch_responded (e : Thrown) (r : Response) :
  outcome_of (try_catch_preHandler e) = Responded r ->
  r = catch_preHandler e /\ Response_accepts (response_status r) = true.
Proof.
  rewrite try_catch_preHandler_accepts.
  destruct (Response_accepts (response_status (catch_preHandler e))) eqn:Hok;
    cbn [outcome_of]; intros H; [ | discriminate H ].
  injection H as <-. split; [ reflexivity | exact Hok ].
Qed.

(** *** The whole run *)

Variable handler : Handler.

Lemma short_circuits_false :
  short_circuits setup request event = false ->
  return400 = true ->
  forall el, In el (toBeParsedList setup) ->
             fails setup request event el = false.
Proof.
  unfold short_circuits. intros H Hcfg el Hin. rewrite Hcfg in H.
  cbn [andb] in H.
  destruct (fails setup request event el) eqn:Hel; [ | reflexivity ].
  assert (Hex : existsb (fails setup request event) (toBeParsedList setup)
                = true).
  { apply existsb_exists. exists el. auto. }
  congruence.
Qed.

(** A run whose loop returns: the response is the loop's, and nothing
    follows the failing field's turn. *)
Lemma apiHandler_returns_400 (pre post : list ValidationKeys)
  (el : ValidationKeys) (errs : list ZodIssue) :
  return400 = true ->
  toBeParsedList setup = pre ++ el :: post ->
  (forall k, In k pre -> fails setup request event k = false) ->
  failure setup request event el = Some errs ->
  apiHandler setup handler request event
  = (Responded (validationError (key_name el) (hd_error errs)),
     flat_map events (pre ++ [el])).
Proof.
  intros Hcfg Hlist Hpre Hel. unfold apiHandler.
  unfold bind at 1. rewrite validate_fields_for_of, Hlist.
  rewrite (for_of_returns pre post el errs _ Hcfg Hpre Hel).
  reflexivity.
Qed.

(** A run whose loop ends: the pre-handler's turn, then the handler's. *)
Lemma apiHandler_validated :
  short_circuits setup request event = false ->
  let c := validated_context setup request event in
  let t := flat_map events (toBeParsedList setup) in
  apiHandler setup handler request event
  = match preHandler setup with
    | None => (FromHandler (handler c), t ++ [EvHandler c])
    | Some pre =>
        match snd (pre c) with
        | Returned _ =>
            (FromHandler (handler (fst (pre c))),
             t ++ [EvPreHandler c; EvHandler (fst (pre c))])
        | Threw e =>
            (outcome_of (try_catch_preHandler e), t ++ [EvPreHandler c])
        end
    end.
Proof.
  intros Hsc c t. unfold apiHandler.
  unfold bind at 1. rewrite validate_fields_for_of.
  rewrite for_of_continues by (apply short_circuits_false; exact Hsc).
  unfold run_preHandler. fold c. cbn [initial_world context trace app].
  fold t.
  destruct (preHandler setup) as [ pre | ].
  - unfold bind, get_context, emit, put_context. cbn [context trace].
    fold (validated_context setup request event). fold c.
    destruct (snd (pre c)) as [ [] | e ]; unfold ret; cbn [context trace].
    + rewrite <- app_assoc. reflexivity.
    + destruct (try_catch_preHandler e); reflexivity.
  - unfold ret. cbn [context trace].
    fold (validated_context setup request event). fold c. reflexivity.
Qed.

End Pipeline.

(** ** The two shapes of a run *)

Lemma first_failure (f : ValidationKeys -> bool) (l : list ValidationKeys) :
  existsb f l = true ->
  exists pre el post,
    l = pre ++ el :: post
    /\ (forall k, In k pre -> f k = false)
    /\ f el = true.
Proof.
  induction l as [ | x l IH ]; intros H; [ discriminate | ].
  cbn [existsb] in H. destruct (f x) eqn:Hx.
  - exists [], x, l. repeat split; auto. intros k [].
  - cbn [orb] in H. destruct (IH H) as (pre & el & post & Hl & Hpre & Hel).
    exists (x :: pre), el, post. subst l. repeat split; auto.
    intros k [ <- | Hk ]; auto.
Qed.

Lemma fails_failure {host : JsonHost} (setup : Setup) (request : NextRequest)
  (event : NextFetchEvent) (el : ValidationKeys) :
  fails setup request event el = true ->
  exists errs, failure setup request event el = Some errs.
Proof.
  unfold fails. destruct (failure setup request event el) as [ errs | ];
    [ eauto | discriminate ].
Qed.

(** Either the loop returns its 400 at the first failing field, or the run
    goes on to the pre-handler with [validated_context]. *)
Lemma run_shape {host : JsonHost} (setup : Setup) (handler : Handler)
  (request : NextRequest) (event : NextFetchEvent) :
  (short_circuits setup request event = true
   /\ exists pre el post errs,
       toBeParsedList setup = pre ++ el :: post
       /\ (forall k, In k pre -> fails setup request event k = false)
       /\ failure setup request event el = Some errs
       /\ apiHandler setup handler request event
          = (Responded (validationError (key_name el) (hd_error errs)),
             flat_map (field_events setup request event) (pre ++ [el])))
  \/ (short_circuits setup request event = false
      /\ apiHandler setup handler request event
         = let c := validated_context setup request event in
           let t := flat_map (field_events setup request event)
                      (toBeParsedList setup) in
           match preHandler setup with
           | None => (FromHandler (handler c), t ++ [EvHandler c])
           | Some pre =>
               match snd (pre c) with
               | Returned _ =>
                   (FromHandler (handler (fst (pre c))),
                    t ++ [EvPreHandler c; EvHandler (fst (pre c))])
               | Threw e =>
                   (outcome_of (try_catch_preHandler e),
                    t ++ [EvPreHandler c])
               end
           end).
Proof.
  destruct (short_circuits setup request event) eqn:Hsc.
  - left. split; [ reflexivity | ].
    unfold short_circuits in Hsc. apply andb_true_iff in Hsc.
    destruct Hsc as [Hcfg Hex].
    destruct (first_failure _ _ Hex) as (pre & el & post & Hl & Hpre & Hel).
    destruct (fails_failure _ _ _ _ Hel) as (errs & Herrs).
    exists pre, el, post, errs. repeat split; auto.
    apply apiHandler_returns_400 with (post := post); auto.
  - right. split; [ reflexivity | ].
    apply apiHandler_validated. exact Hsc.
Qed.

(** ** Validation failures under [return400ValidationError] *)

(** C1. With [return400ValidationError] true, or with no config, a run in
    which the validation of some configured field fails returns a JSON
    response of status 400 whose body is [{type, status, message, path}] for
    the first failing field and its first issue (the empty string and the
    empty path when it reports none).  The fields after that one are neither
    extracted nor validated, and neither the pre-handler nor the handler is
    called. *)
Theorem validation_failure_returns_400 {host : JsonHost} (setup : Setup)
  (handler : Handler) (request : NextRequest) (event : NextFetchEvent) :
  (config setup = None
   \/ exists c, config setup = Some c /\ return400ValidationError c = true) ->
  (exists el, In el (toBeParsedList setup)
              /\ fails setup request event el = true) ->
  exists pre el post errs,
    toBeParsedList setup = pre ++ el :: post
    /\ (forall k, In k pre -> fails setup request event k = false)
    /\ failure setup request event el = Some errs
    /\ fst (apiHandler setup handler request event)
       = Responded
           (NextResponse_json
              (JObj [("type", JStr (key_name el));
                     ("status", JStr "validation_error");
                     ("message", JStr match errs with
                                      | issue :: _ => message issue
                                      | [] => ""
                                      end);
                     ("path", JArr match errs with
                                   | issue :: _ => json_of_path (path issue)
                                   | [] => []
                                   end)])
              400)
    /\ extracted (snd (apiHandler setup handler request event)) = pre ++ [el]
    /\ validated (snd (apiHandler setup handler request event)) = pre ++ [el]
    /\ preHandler_calls (snd (apiHandler setup handler request event)) = []
    /\ handler_calls (snd (apiHandler setup handler request event)) = [].
Proof.
  intros Hconfig (el0 & Hin0 & Hfail0).
  assert (Hcfg : return400ValidationError (effective_config setup) = true).
  { unfold effective_config.
    destruct Hconfig as [ -> | (c & -> & Hc) ]; [ reflexivity | exact Hc ]. }
  destruct (run_shape setup handler request event)
    as [ (_ & pre & el & post & errs & Hl & Hpre & Hel & Hrun) | (Hsc & _) ].
  - exists pre, el, post, errs.
    destruct (loop_events_read setup request event (pre ++ [el]))
      as (He & Hv & Hp & Hh).
    rewrite Hrun. cbn [fst snd]. repeat split; auto.
    + destruct errs; reflexivity.
    + apply Hv. intros k Hk. rewrite Hl.
      apply in_app_iff in Hk. apply in_app_iff.
      destruct Hk as [ Hk | [ <- | [] ] ]; [ left; exact Hk | right; left ].
      reflexivity.
  - pose proof (short_circuits_false setup request event Hsc Hcfg el0 Hin0).
    congruence.
Qed.

Lemma validation_failure_returns_400_witness :
  exists pre el post errs,
    toBeParsedList query_id_setup = pre ++ el :: post
    /\ (forall k, In k pre ->
                  fails query_id_setup (get_request [("id", "abc")]) no_params k
                  = false)
    /\ failure query_id_setup (get_request [("id", "abc")]) no_params el
       = Some errs
    /\ fst (apiHandler query_id_setup ok_handler
              (get_request [("id", "abc")]) no_params)
       = Responded
           (NextResponse_json
              (JObj [("type", JStr (key_name el));
                     ("status", JStr "validation_error");
                     ("message", JStr match errs with
                                      | issue :: _ => message issue
                                      | [] => ""
                                      end);
                     ("path", JArr match errs with
                                   | issue :: _ => json_of_path (path issue)
                                   | [] => []
                                   end)])
              400)
    /\ extracted (snd (apiHandler query_id_setup ok_handler
                         (get_request [("id", "abc")]) no_params))
       = pre ++ [el]
    /\ validated (snd (apiHandler query_id_setup ok_handler
                         (get_request [("id", "abc")]) no_params))
       = pre ++ [el]
    /\ preHandler_calls (snd (apiHandler query_id_setup ok_handler
                                (get_request [("id", "abc")]) no_params))
       = []
    /\ handler_calls (snd (apiHandler query_id_setup ok_handler
                             (get_request [("id", "abc")]) no_params))
       = [].
Proof.
  apply (validation_failure_returns_400 query_id_setup ok_handler
           (get_request [("id", "abc")]) no_params).
  - left. reflexivity.
  - exists key_query. split; [ left; reflexivity | reflexivity ].
Defined.

(** ** A body that is not JSON *)

Lemma getData_invalid_json {host : JsonHost} (setup : Setup)
  (request : NextRequest) (event : NextFetchEvent) :
  JSON_parse (body_text request) = None ->
  getData setup request event key_body
  = if return400ValidationError (effective_config setup)
    then (VResponse (invalid_json_response "body"), [])
    else (VJson (JObj []), ["Invalid JSON body provided"]).
Proof.
  intros H. unfold getData. rewrite H.
  destruct (return400ValidationError (effective_config setup)); reflexivity.
Qed.

(** Whatever the loop returns is a [validationError] response, whose
    [status] property is not the one of the invalid-JSON response. *)
Lemma loop_returns_validationError {host : JsonHost} (setup : Setup)
  (request : NextRequest) (event : NextFetchEvent) (l : list ValidationKeys) :
  forall (w w' : World) (r : Response),
    for_of l (validate_field setup request event) w = (Return r, w') ->
    (exists type data, r = validationError type data)
    /\ forall type, r <> invalid_json_response type.
Proof.
  induction l as [ | el l IH ]; intros w w' r H.
  - discriminate H.
  - cbn [for_of] in H. unfold bind at 1 in H.
    rewrite validate_field_run in H.
    destruct (failure setup request event el) as [ errs | ].
    + destruct (return400ValidationError (effective_config setup)).
      * injection H as Hr _. subst r. split; [ eauto | ].
        intros type. unfold validationError, invalid_json_response.
        congruence.
      * apply IH in H. exact H.
    + apply IH in H. exact H.
Qed.

(** Without the 400, the body is read as [{}], the diagnostic is written,
    and the run goes on to the pre-handler and the handler. *)
Lemma invalid_json_without_400 {host : JsonHost} (setup : Setup)
  (handler : Handler) (request : NextRequest) (event : NextFetchEvent) :
  return400ValidationError (effective_config setup) = false ->
  JSON_parse (body_text request) = None ->
  In key_body (toBeParsedList setup) ->
  getData setup request event key_body
  = (VJson (JObj []), ["Invalid JSON body provided"])
  /\ In (EvConsoleLog "Invalid JSON body provided")
        (snd (apiHandler setup handler request event))
  /\ In (EvSafeParse key_body (VJson (JObj [])))
        (snd (apiHandler setup handler request event))
  /\ extracted (snd (apiHandler setup handler request event))
     = toBeParsedList setup
  /\ short_circuits setup request event = false.
Proof.
  intros Hcfg Hbody Hin.
  pose proof (getData_invalid_json setup request event Hbody) as Hdata.
  rewrite Hcfg in Hdata.
  assert (Hsc : short_circuits setup request event = false).
  { unfold short_circuits. rewrite Hcfg. reflexivity. }
  assert (Hev : forall ev, In ev (field_events setup request event key_body) ->
                           In ev (snd (apiHandler setup handler request event))).
  { intros ev Hev.
    rewrite (apiHandler_validated setup request event handler Hsc).
    assert (Ht : In ev (flat_map (field_events setup request event)
                          (toBeParsedList setup))).
    { apply in_flat_map. exists key_body. auto. }
    cbv zeta.
    destruct (preHandler setup) as [ pre | ];
      [ destruct (snd (pre _)) | ]; cbn [snd]; apply in_app_iff; left; exact Ht. }
  destruct (in_toBeParsedList setup key_body Hin) as (o & sch & Ho & Hsch).
  repeat split; auto.
  - apply Hev. unfold field_events. rewrite Hdata. cbn. auto.
  - apply Hev. unfold field_events. rewrite Hdata. cbn [fst snd map].
    unfold parse_field. rewrite Ho, Hsch. cbn. auto.
  - rewrite (apiHandler_validated setup request event handler Hsc).
    destruct (loop_events_read setup request event (toBeParsedList setup))
      as (He & _ & _ & _).
    cbv zeta.
    destruct (preHandler setup) as [ pre | ];
      [ destruct (snd (pre _)) | ]; cbn [snd]; rewrite extracted_app, He;
      cbn; apply List.app_nil_r.
Qed.

(** C2. The body [not-json] under the default config.  The response built
    in [getData] is handed to the body schema as the data to validate: with
    [z.object({name: z.string()})] the run returns the validation error of
    the missing [name], not the invalid-JSON response, and with
    [z.object({})] the validation succeeds and the handler is called. *)
Theorem invalid_json_response_is_validated :
  Json.parse "not-json" = None
  /\ apiHandler body_name_setup ok_handler (post_request "not-json") no_params
     = (Responded
          (NextResponse_json
             (JObj [("type", JStr "body");
                    ("status", JStr "validation_error");
                    ("message", JStr "Required");
                    ("path", JArr [JStr "name"])])
             400),
        [EvGetData key_body;
         EvSafeParse key_body
           (VResponse
              (NextResponse_json
                 (JObj [("type", JStr "body");
                        ("status", JStr "error");
                        ("message", JStr "Invalid JSON body provided");
                        ("path", JArr [])])
                 400))])
  /\ fst (apiHandler body_any_setup ok_handler (post_request "not-json")
            no_params)
     = FromHandler (Returned (Some ok_response))
  /\ handler_calls (snd (apiHandler body_any_setup ok_handler
                           (post_request "not-json") no_params))
     = [initial_context (post_request "not-json") no_params].
Proof.
  repeat split; vm_compute; reflexivity.
Qed.

(** ** Validation failures without the 400 *)

(** C3, amended.  With [return400ValidationError] false every configured
    field is extracted and validated, whatever failed before it.  When the
    loop ends the issue collection holds the issues every failing field
    reported, in order, and the context value of every failing field is
    still the empty object.  A configured pre-handler is then called with
    this context; the handler is called with it when there is no
    pre-handler, with the context as the pre-handler leaves it when the
    pre-handler returns, and not at all when the pre-handler throws. *)
Theorem validation_without_400 {host : JsonHost} (setup : Setup)
  (handler : Handler) (request : NextRequest) (event : NextFetchEvent) :
  return400ValidationError (effective_config setup) = false ->
  let c := validated_context setup request event in
  let t := snd (apiHandler setup handler request event) in
  extracted t = toBeParsedList setup
  /\ validated t = toBeParsedList setup
  /\ errors c = flat_map (reported setup request event) (toBeParsedList setup)
  /\ (forall el errs,
        In el (toBeParsedList setup) ->
        failure setup request event el = Some errs ->
        incl errs (errors c) /\ context_get c el = [])
  /\ match preHandler setup with
     | None => preHandler_calls t = [] /\ handler_calls t = [c]
     | Some pre =>
         preHandler_calls t = [c]
         /\ handler_calls t = match snd (pre c) with
                              | Returned _ => [fst (pre c)]
                              | Threw _ => []
                              end
     end.
Proof.
  intros Hcfg c t.
  assert (Hsc : short_circuits setup request event = false).
  { unfold short_circuits. rewrite Hcfg. reflexivity. }
  assert (Herr : errors c
                 = flat_map (reported setup request event)
                     (toBeParsedList setup)).
  { unfold c, validated_context. rewrite fold_apply_field_errors.
    reflexivity. }
  destruct (loop_events_read setup request event (toBeParsedList setup))
    as (He & Hv & Hp & Hh).
  specialize (Hv (fun el H => H)).
  subst t. rewrite (apiHandler_validated setup request event handler Hsc).
  cbv zeta. fold c.
  split; [ | split; [ | split; [ exact Herr | split ] ] ].
  - destruct (preHandler setup) as [ pre | ];
      [ destruct (snd (pre c)) | ]; cbn [snd]; rewrite extracted_app, He;
      cbn; apply List.app_nil_r.
  - destruct (preHandler setup) as [ pre | ];
      [ destruct (snd (pre c)) | ]; cbn [snd]; rewrite validated_app, Hv;
      cbn; apply List.app_nil_r.
  - intros el errs Hin Hel. split.
    + rewrite Herr. intros i Hi. apply in_flat_map. exists el.
      split; [ assumption | ]. unfold reported. rewrite Hel. exact Hi.
    + unfold c, validated_context. rewrite fold_apply_field_get.
      * destruct el; reflexivity.
      * right. unfold fails. rewrite Hel. reflexivity.
  - destruct (preHandler setup) as [ pre | ].
    + destruct (snd (pre c)); cbn [snd];
        rewrite preHandler_calls_app, handler_calls_app, Hp, Hh; cbn; auto.
    + cbn [snd]. rewrite preHandler_calls_app, handler_calls_app, Hp, Hh.
      cbn. auto.
Qed.

Lemma validation_without_400_witness :
  return400ValidationError (effective_config (lenient_setup None)) = false
  /\ let c := validated_context (lenient_setup None) (post_request "{}")
                no_params in
     let t := snd (apiHandler (lenient_setup None) ok_handler
                     (post_request "{}") no_params) in
     extracted t = toBeParsedList (lenient_setup None)
     /\ validated t = toBeParsedList (lenient_setup None)
     /\ errors c
        = flat_map (reported (lenient_setup None) (post_request "{}") no_params)
            (toBeParsedList (lenient_setup None))
     /\ (forall el errs,
           In el (toBeParsedList (lenient_setup None)) ->
           failure (lenient_setup None) (post_request "{}") no_params el
           = Some errs ->
           incl errs (errors c) /\ context_get c el = [])
     /\ match preHandler (lenient_setup None) with
        | None => preHandler_calls t = [] /\ handler_calls t = [c]
        | Some pre =>
            preHandler_calls t = [c]
            /\ handler_calls t = match snd (pre c) with
                                 | Returned _ => [fst (pre c)]
                                 | Threw _ => []
                                 end
        end.
Proof.
  split.
  - reflexivity.
  - apply (validation_without_400 (lenient_setup None) ok_handler
             (post_request "{}") no_params).
    reflexivity.
Defined.

(** C3 as stated fails on two counts.  A pre-handler that throws keeps the
    handler from being called, although a field failed under a config
    without the 400; and a failing field that reports no issue adds no entry
    to the issue collection. *)
Lemma validation_without_400_counterexample :
  let denies :=
    throws (ThrowApiHandlerError
              (new_ApiHandlerError (MessageString "denied") (Some 403%Z))) in
  (return400ValidationError (effective_config (lenient_setup (Some denies)))
   = false
   /\ fails (lenient_setup (Some denies)) (post_request "{}") no_params key_body
      = true
   /\ handler_calls (snd (apiHandler (lenient_setup (Some denies)) ok_handler
                            (post_request "{}") no_params))
      = [])
  /\ (return400ValidationError (effective_config silent_setup) = false
      /\ In key_body (toBeParsedList silent_setup)
      /\ fails silent_setup (post_request "{}") no_params key_body = true
      /\ errors (validated_context silent_setup (post_request "{}") no_params)
         = []).
Proof.
  vm_compute. repeat split; auto.
Qed.

(** ** What the pre-handler throws *)

Lemma preHandler_throws {host : JsonHost} (setup : Setup) (handler : Handler)
  (request : NextRequest) (event : NextFetchEvent) (pre : PreHandler)
  (e : Thrown) :
  short_circuits setup request event = false ->
  preHandler setup = Some pre ->
  snd (pre (validated_context setup request event)) = Threw e ->
  apiHandler setup handler request event
  = (if Response_accepts (response_status (catch_preHandler e))
     then Responded (catch_preHandler e)
     else Rejected (InvalidStatus (response_status (catch_preHandler e))),
     flat_map (field_events setup request event) (toBeParsedList setup)
       ++ [EvPreHandler (validated_context setup request event)]).
Proof.
  intros Hsc Hpre He.
  rewrite (apiHandler_validated setup request event handler Hsc).
  cbv zeta. rewrite Hpre, He, try_catch_preHandler_accepts.
  destruct (Response_accepts (response_status (catch_preHandler e)));
    reflexivity.
Qed.

(** The status the [catch] asks for when the pre-handler throws an
    [ApiHandlerError] made by the constructor. *)
Lemma declared_status {host : JsonHost} (message : MessageArg)
  (code : option Z) :
  number_or (statusCode (new_ApiHandlerError message code)) 400
  = match code with
    | Some c => if Z.eqb c 0 then 400%Z else c
    | None => 400%Z
    end.
Proof. destruct code as [ c | ]; reflexivity. Qed.







(** C6, amended.  A thrown value that is no [Error] gives the fixed
    response [{status, statusCode, message}] with status 400.  An [Error]
    that is no [ApiHandlerError] gives a response of status 400 made from its
    message: the parsed message when it is JSON text, the message as plain
    text otherwise. *)
Theorem other_throw_gives_400 {host : JsonHost} (setup : Setup)
  (handler : Handler) (request : NextRequest) (event : NextFetchEvent)
  (pre : PreHandler) (e : Thrown) :
  (forall err, e <> ThrowApiHandlerError err) ->
  short_circuits setup request event = false ->
  preHandler setup = Some pre ->
  snd (pre (validated_context setup request event)) = Threw e ->
  fst (apiHandler setup handler request event)
  = Responded
      match e with
      | ThrowValue _ =>
          NextResponse_json
            (JObj [("status", JStr "error");
                   ("statusCode", JNum 400);
                   ("message", JStr "Pre-handler failed.")])
            400
      | ThrowError text =>
          match JSON_parse text with
          | Some parsed => NextResponse_json parsed 400
          | None => NextResponse_text text 400
          end
      | ThrowApiHandlerError err =>
          message_response (Error_message err) (number_or (statusCode err) 400)
      end
  /\ forall r, fst (apiHandler setup handler request event) = Responded r ->
               response_status r = 400%Z.
Proof.
  intros Hother Hsc Hpre Hthrow.
  rewrite (preHandler_throws setup handler request event pre _ Hsc Hpre Hthrow).
  assert (Hstatus : response_status (catch_preHandler e) = 400%Z).
  { destruct e as [ err | text | v ].
    - exfalso. apply (Hother err). reflexivity.
    - cbn [catch_preHandler]. apply response_status_message.
    - reflexivity. }
  rewrite Hstatus. cbn [fst]. split.
  - destruct e as [ err | text | v ]; reflexivity.
  - intros r Hr. injection Hr as <-. exact Hstatus.
Qed.

Lemma other_throw_gives_400_witness :
  fst (apiHandler (preHandler_setup (throws (ThrowValue (VJson (JStr "boom")))))
         ok_handler (post_request "") no_params)
  = Responded
      (NextResponse_json
         (JObj [("status", JStr "error");
                ("statusCode", JNum 400);
                ("message", JStr "Pre-handler failed.")])
         400)
  /\ forall r,
       fst (apiHandler
              (preHandler_setup (throws (ThrowValue (VJson (JStr "boom")))))
              ok_handler (post_request "") no_params)
       = Responded r ->
       response_status r = 400%Z.
Proof.
  apply (other_throw_gives_400
           (preHandler_setup (throws (ThrowValue (VJson (JStr "boom")))))
           ok_handler (post_request "") no_params
           (throws (ThrowValue (VJson (JStr "boom"))))
           (ThrowValue (VJson (JStr "boom")))).
  - intros err. discriminate.
  - reflexivity.
  - reflexivity.
  - reflexivity.
Defined.

(** C6 as stated fails for a plain [Error]: [throw new Error('boom')] in
    the pre-handler comes back as the plain text [boom]. *)
Lemma other_throw_gives_400_counterexample :
  fst (apiHandler (preHandler_setup (throws (ThrowError "boom")))
         ok_handler (post_request "") no_params)
  = Responded (NextResponse_text "boom" 400).
Proof. vm_compute. reflexivity. Qed.




(** ** The order of the fields *)

Lemma toBeParsedList_own_keys {host : JsonHost} (setup : Setup) :
  toBeParsedList setup
  = match schema setup with
    | Some o =>
        filter (fun k => match property o k with
                         | Some _ => true
                         | None => false
                         end) (own_keys o)
    | None => []
    end.
Proof.
  unfold toBeParsedList, Object_entries.
  destruct (schema setup) as [ o | ]; [ | reflexivity ].
  induction (own_keys o) as [ | k keys IH ]; [ reflexivity | ].
  cbn [map filter snd]. destruct (property o k); cbn [map fst]; rewrite IH;
    reflexivity.
Qed.

(** C7, amended.  The fields are extracted and validated in the enumeration
    order of the properties of [setup.schema] that hold a schema: the fields
    extracted are a prefix of that list, each validated as it is extracted,
    and they are the whole list when the loop does not return.  The order is
    body, segment, query, headers only for a schema object that lists them
    so. *)
Theorem fields_in_enumeration_order {host : JsonHost} (setup : Setup)
  (handler : Handler) (request : NextRequest) (event : NextFetchEvent) :
  let t := snd (apiHandler setup handler request event) in
  toBeParsedList setup
  = match schema setup with
    | Some o =>
        filter (fun k => match property o k with
                         | Some _ => true
                         | None => false
                         end) (own_keys o)
    | None => []
    end
  /\ validated t = extracted t
  /\ (exists rest, toBeParsedList setup = extracted t ++ rest)
  /\ (short_circuits setup request event = false ->
      extracted t = toBeParsedList setup).
Proof.
  intros t. split; [ apply toBeParsedList_own_keys | ].
  destruct (run_shape setup handler request event)
    as [ (Hsc & pre & el & post & errs & Hl & Hpre & Hel & Hrun)
       | (Hsc & Hrun) ].
  - subst t. rewrite Hrun. cbn [snd].
    destruct (loop_events_read setup request event (pre ++ [el]))
      as (He & Hv & _ & _).
    rewrite He, Hv.
    + split; [ reflexivity | ]. split.
      * exists post. rewrite Hl, <- app_assoc. reflexivity.
      * intros H. congruence.
    + intros k Hk. rewrite Hl. apply in_app_iff in Hk. apply in_app_iff.
      destruct Hk as [ Hk | [ <- | [] ] ]; [ left; exact Hk | right; left ].
      reflexivity.
  - destruct (loop_events_read setup request event (toBeParsedList setup))
      as (He & Hv & _ & _).
    specialize (Hv (fun el H => H)).
    assert (Ht : extracted t = toBeParsedList setup
                 /\ validated t = toBeParsedList setup).
    { subst t. rewrite Hrun. cbv zeta.
      destruct (preHandler setup) as [ p | ];
        [ destruct (snd (p _)) | ]; cbn [snd];
        rewrite extracted_app, validated_app, He, Hv; cbn;
        rewrite List.app_nil_r; auto. }
    destruct Ht as [Hte Htv]. rewrite Hte, Htv.
    split; [ reflexivity | ]. split; [ | reflexivity ].
    exists []. rewrite List.app_nil_r. reflexivity.
Qed.

(** C7 as stated fails for a schema object that names the query before the
    body: the query is extracted and validated first. *)
Lemma fields_in_enumeration_order_counterexample :
  let request :=
    {| searchParams := [("id", "7")]; body_text := "{}";
       header_entries := [] |} in
  extracted (snd (apiHandler query_then_body_setup ok_handler request
                    no_params))
  = [key_query; key_body]
  /\ validated (snd (apiHandler query_then_body_setup ok_handler request
                       no_params))
     = [key_query; key_body]
  /\ [key_query; key_body] <> [key_body; key_query].
Proof.
  repeat split; try (vm_compute; reflexivity). discriminate.
Qed.

(** ** The context the callbacks observe *)

(** C8, amended.  Whenever the pre-handler or the handler is called, each
    of the four per-field values of the context is an object, not
    [undefined].  At the call of the pre-handler, and at the call of the
    handler when no pre-handler is configured, a field without a configured
    schema holds the initial empty object, and so does a field whose
    validation failed.  After a pre-handler the handler observes the context
    as the pre-handler left it. *)
Theorem context_values_at_callbacks {host : JsonHost} (setup : Setup)
  (handler : Handler) (request : NextRequest) (event : NextFetchEvent)
  (c : HandlerContext) (el : ValidationKeys) :
  In c (preHandler_calls (snd (apiHandler setup handler request event)))
  \/ In c (handler_calls (snd (apiHandler setup handler request event))) ->
  context_value c el <> VUndefined
  /\ (In c (preHandler_calls (snd (apiHandler setup handler request event)))
      \/ preHandler setup = None ->
      (~ In el (toBeParsedList setup) -> context_get c el = [])
      /\ (fails setup request event el = true -> context_get c el = []))
  /\ (forall pre,
        preHandler setup = Some pre ->
        In c (handler_calls (snd (apiHandler setup handler request event))) ->
        c = fst (pre (validated_context setup request event))
        /\ snd (pre (validated_context setup request event)) = Returned tt).
Proof.
  intros Hobs. split; [ discriminate | ].
  assert (Hctx : forall k,
             (~ In k (toBeParsedList setup) ->
              context_get (validated_context setup request event) k = [])
             /\ (fails setup request event k = true ->
                 context_get (validated_context setup request event) k = [])).
  { intros k. unfold validated_context. split; intros Hk;
      (rewrite fold_apply_field_get; [ destruct k; reflexivity | auto ]). }
  destruct (run_shape setup handler request event)
    as [ (Hsc & pre & k & post & errs & Hl & Hpre & Hel & Hrun)
       | (Hsc & Hrun) ].
  - exfalso. rewrite Hrun in Hobs. cbn [snd] in Hobs.
    destruct (loop_events_read setup request event (pre ++ [k]))
      as (_ & _ & Hp & Hh).
    rewrite Hp, Hh in Hobs. destruct Hobs as [ [] | [] ].
  - destruct (loop_events_read setup request event (toBeParsedList setup))
      as (_ & _ & Hp & Hh).
    rewrite Hrun in *. cbv zeta in *.
    destruct (preHandler setup) as [ p | ].
    + destruct (snd (p (validated_context setup request event)))
        as [ [] | e ] eqn:Hres; cbn [snd] in *;
        rewrite preHandler_calls_app, handler_calls_app, Hp, Hh in *;
        cbn in Hobs |- *.
      * split.
        -- intros [ [ <- | [] ] | Hnone ]; [ apply Hctx | discriminate ].
        -- intros pre Hpre [ <- | [] ]. injection Hpre as <-.
           split; [ reflexivity | exact Hres ].
      * split.
        -- intros [ [ <- | [] ] | Hnone ]; [ apply Hctx | discriminate ].
        -- intros pre Hpre [].
    + cbn [snd] in *.
      rewrite preHandler_calls_app, handler_calls_app, Hp, Hh in *.
      cbn in Hobs |- *. split.
      * intros _. destruct Hobs as [ [] | [ <- | [] ] ]. apply Hctx.
      * intros pre Hpre. discriminate.
Qed.

Lemma context_values_at_callbacks_witness :
  let c := validated_context (lenient_setup None) (post_request "{}")
             no_params in
  let t := snd (apiHandler (lenient_setup None) ok_handler (post_request "{}")
                  no_params) in
  context_value c key_body <> VUndefined
  /\ (In c (preHandler_calls t) \/ preHandler (lenient_setup None) = None ->
      (~ In key_body (toBeParsedList (lenient_setup None)) ->
       context_get c key_body = [])
      /\ (fails (lenient_setup None) (post_request "{}") no_params key_body
          = true ->
          context_get c key_body = []))
  /\ (forall pre,
        preHandler (lenient_setup None) = Some pre ->
        In c (handler_calls t) ->
        c = fst (pre (validated_context (lenient_setup None)
                        (post_request "{}") no_params))
        /\ snd (pre (validated_context (lenient_setup None)
                       (post_request "{}") no_params))
           = Returned tt).
Proof.
  apply (context_values_at_callbacks (lenient_setup None) ok_handler
           (post_request "{}") no_params
           (validated_context (lenient_setup None) (post_request "{}")
              no_params)
           key_body).
  right. left. reflexivity.
Defined.

(** C8 as stated fails at the handler when the pre-handler assigns a field:
    with no schema at all, the handler observes the body the pre-handler
    put there, not the initial empty object. *)
Lemma context_values_at_callbacks_counterexample :
  toBeParsedList (preHandler_setup assign_user) = []
  /\ exists c,
       handler_calls (snd (apiHandler (preHandler_setup assign_user) ok_handler
                             (post_request "") no_params))
       = [c]
       /\ context_get c key_body = [("user", JStr "u1")]
       /\ context_get c key_body <> [].
Proof.
  split; [ reflexivity | ].
  eexists. split; [ vm_compute; reflexivity | ].
  split; [ reflexivity | discriminate ].
Qed.

(** ** Who answers *)


Example handler_throw_propagates :
  fst (apiHandler body_name_setup throwing_handler
         (post_request (Json.stringify (JObj [("name", JStr "x")]))) no_params)
  = FromHandler (Threw (ThrowError "handler failed")).
Proof. vm_compute. reflexivity. Qed.


(** ** [objectFromEntries] *)

Section ObjectFromEntries.

Local Abbreviation step :=
  (fun (obj : JsObject) (kv : string * string) =>
     obj_assign (fst kv) (JStr (snd kv)) obj).

Lemma has_own_In (obj : JsObject) (k : string) :
  has_own obj k = true <-> In k (map fst obj).
Proof.
  unfold has_own. rewrite existsb_exists. split.
  - intros (x & Hin & Heq). apply String.eqb_eq in Heq. subst x. exact Hin.
  - intros Hin. exists k. split; [ exact Hin | apply String.eqb_refl ].
Qed.

Lemma has_own_not_In (obj : JsObject) (k : string) :
  has_own obj k = false <-> ~ In k (map fst obj).
Proof.
  rewrite <- has_own_In. destruct (has_own obj k); split; congruence.
Qed.

(** *** Reading a property after a write *)

Lemma obj_get_replace (o : JsObject) (k k' : string) (v : json) :
  has_own o k = true ->
  obj_get (obj_replace k v o) k'
  = if String.eqb k k' then Some v else obj_get o k'.
Proof.
  induction o as [ | [k0 v0] o IH ]; intros Hown; [ discriminate | ].
  cbn [obj_replace obj_get].
  destruct (String.eqb_spec k0 k) as [ -> | Hk ].
  - cbn [obj_get]. destruct (String.eqb k k'); reflexivity.
  - cbn [obj_get]. rewrite IH.
    + destruct (String.eqb_spec k0 k') as [ -> | Hk' ]; [ | reflexivity ].
      destruct (String.eqb_spec k k') as [ -> | ]; [ congruence | reflexivity ].
    + unfold has_own in *. cbn [map fst existsb] in Hown.
      destruct (String.eqb_spec k k0) as [ -> | ]; [ congruence | exact Hown ].
Qed.

Lemma obj_get_insert (o : JsObject) (k k' : string) (v : json) :
  has_own o k = false ->
  obj_get (obj_insert k v o) k'
  = if String.eqb k k' then Some v else obj_get o k'.
Proof.
  induction o as [ | [k0 v0] o IH ]; intros Hown; [ reflexivity | ].
  unfold has_own in Hown. cbn [map fst existsb] in Hown.
  apply orb_false_iff in Hown. destruct Hown as [Hk0 Hown].
  cbn [obj_insert]. destruct (enumerated_before k k0); [ reflexivity | ].
  cbn [obj_get]. rewrite (IH Hown).
  destruct (String.eqb_spec k0 k') as [ -> | Hk' ]; [ | reflexivity ].
  rewrite Hk0. reflexivity.
Qed.

Lemma obj_get_define (o : JsObject) (k k' : string) (v : json) :
  obj_get (obj_define k v o) k'
  = if String.eqb k k' then Some v else obj_get o k'.
Proof.
  unfold obj_define. destruct (has_own o k) eqn:Hown.
  - apply obj_get_replace. exact Hown.
  - apply obj_get_insert. exact Hown.
Qed.

Lemma obj_get_assign_other (o : JsObject) (k k' : string) (v : json) :
  k <> k' -> obj_get (obj_assign k v o) k' = obj_get o k'.
Proof.
  intros Hne. unfold obj_assign.
  destruct (String.eqb k "__proto__" && negb (has_own o k)); [ reflexivity | ].
  rewrite obj_get_define.
  destruct (String.eqb_spec k k'); [ congruence | reflexivity ].
Qed.

Lemma fold_obj_get_other (es : list (string * string)) (key : string) :
  forall acc : JsObject,
    (forall kv, In kv es -> fst kv <> key) ->
    obj_get (fold_left step es acc) key = obj_get acc key.
Proof.
  induction es as [ | [k v] es IH ]; intros acc Hes; [ reflexivity | ].
  cbn [fold_left fst snd]. rewrite IH.
  - apply obj_get_assign_other. apply (Hes (k, v)). left. reflexivity.
  - intros kv Hin. apply Hes. right. exact Hin.
Qed.

(** *** The keys after a write *)

Lemma keys_obj_replace (o : JsObject) (k : string) (v : json) :
  map fst (obj_replace k v o) = map fst o.
Proof.
  induction o as [ | [k0 v0] o IH ]; [ reflexivity | ].
  cbn [obj_replace]. destruct (String.eqb k0 k); cbn [map fst];
    [ reflexivity | rewrite IH; reflexivity ].
Qed.

Lemma keys_obj_insert_In (o : JsObject) (k k' : string) (v : json) :
  In k' (map fst (obj_insert k v o)) <-> k' = k \/ In k' (map fst o).
Proof.
  induction o as [ | [k0 v0] o IH ].
  - cbn. intuition.
  - cbn [obj_insert]. destruct (enumerated_before k k0).
    + cbn [map fst In]. intuition.
    + cbn [map fst In]. rewrite IH. intuition.
Qed.

Lemma keys_obj_insert_NoDup (o : JsObject) (k : string) (v : json) :
  ~ In k (map fst o) -> NoDup (map fst o) ->
  NoDup (map fst (obj_insert k v o)).
Proof.
  induction o as [ | [k0 v0] o IH ]; intros Hk Hnd.
  - cbn. constructor; [ intros [] | constructor ].
  - cbn [obj_insert]. destruct (enumerated_before k k0).
    + cbn [map fst]. constructor; assumption.
    + cbn [map fst] in *. inversion Hnd as [ | ? ? Hk0 Ho ]; subst.
      constructor.
      * rewrite keys_obj_insert_In. intros [ -> | H ]; [ | exact (Hk0 H) ].
        apply Hk. left. reflexivity.
      * apply IH; [ | exact Ho ]. intros H. apply Hk. right. exact H.
Qed.

Lemma enumerated_before_asym (a b : string) :
  enumerated_before a b = true -> enumerated_before b a = false.
Proof.
  unfold enumerated_before.
  destruct (array_index a) as [ n | ], (array_index b) as [ m | ];
    try discriminate; try reflexivity.
  intros H. apply N.ltb_lt in H. apply N.ltb_ge. lia.
Qed.

(** What is not before [x] is not before what is before [x]. *)
Lemma enumerated_before_later (k x l : string) :
  enumerated_before k x = true ->
  enumerated_before l x = false ->
  enumerated_before l k = false.
Proof.
  unfold enumerated_before.
  destruct (array_index k) as [ n | ], (array_index x) as [ m | ],
      (array_index l) as [ p | ];
    try discriminate; try reflexivity.
  intros Hk Hl. apply N.ltb_lt in Hk. apply N.ltb_ge in Hl.
  apply N.ltb_ge. lia.
Qed.

Lemma keys_obj_insert_ordered (o : JsObject) (k : string) (v : json) :
  enumeration_ordered (map fst o) = true ->
  enumeration_ordered (map fst (obj_insert k v o)) = true.
Proof.
  induction o as [ | [k0 v0] o IH ]; intros Hord; [ reflexivity | ].
  cbn [map fst enumeration_ordered] in Hord.
  apply andb_true_iff in Hord. destruct Hord as [Hk0 Ho].
  cbn [obj_insert]. destruct (enumerated_before k k0) eqn:Hbefore.
  - cbn [map fst enumeration_ordered forallb].
    rewrite (enumerated_before_asym k k0 Hbefore), Hk0, Ho. cbn [negb andb].
    rewrite andb_true_r. apply forallb_forall. intros l Hl.
    apply negb_true_iff. apply (enumerated_before_later k k0 l Hbefore).
    apply negb_true_iff. exact (proj1 (forallb_forall _ _) Hk0 l Hl).
  - cbn [map fst enumeration_ordered]. rewrite (IH Ho), andb_true_r.
    apply forallb_forall. intros l Hl.
    apply keys_obj_insert_In in Hl. destruct Hl as [ -> | Hl ].
    + rewrite Hbefore. reflexivity.
    + exact (proj1 (forallb_forall _ _) Hk0 l Hl).
Qed.

(** An object built by assignments from [{}]: each name once, the names in
    enumeration order, and no property [__proto__]. *)
Definition assigned (o : JsObject) : Prop :=
  NoDup (map fst o)
  /\ enumeration_ordered (map fst o) = true
  /\ ~ In "__proto__" (map fst o).

Lemma obj_assign_keys (o : JsObject) (k : string) (v : json) :
  assigned o ->
  assigned (obj_assign k v o)
  /\ forall k', In k' (map fst (obj_assign k v o))
                <-> (k' = k /\ k <> "__proto__") \/ In k' (map fst o).
Proof.
  intros (Hnd & Hord & Hproto). unfold assigned, obj_assign.
  destruct (String.eqb_spec k "__proto__") as [ -> | Hk ].
  - assert (Hown : has_own o "__proto__" = false)
      by (apply has_own_not_In; exact Hproto).
    rewrite Hown. cbn [negb andb]. split; [ auto | ].
    intros k'. intuition.
  - cbn [andb]. unfold obj_define. destruct (has_own o k) eqn:Hown.
    + rewrite keys_obj_replace. split; [ auto | ].
      intros k'. split; [ auto | ].
      intros [ [-> _] | H ]; [ apply has_own_In; exact Hown | exact H ].
    + apply has_own_not_In in Hown. split.
      * split; [ | split ].
        -- apply keys_obj_insert_NoDup; assumption.
        -- apply keys_obj_insert_ordered. exact Hord.
        -- rewrite keys_obj_insert_In. intros [ H | H ]; [ | exact (Hproto H) ].
           apply Hk. symmetry. exact H.
      * intros k'. rewrite keys_obj_insert_In. intuition.
Qed.

Lemma fold_assigned (es : list (string * string)) :
  forall acc : JsObject,
    assigned acc ->
    assigned (fold_left step es acc)
    /\ forall k, In k (map fst (fold_left step es acc))
                 <-> In k (map fst acc)
                     \/ (In k (map fst es) /\ k <> "__proto__").
Proof.
  induction es as [ | [k v] es IH ]; intros acc Hacc.
  - cbn. split; [ exact Hacc | ]. intros k. intuition.
  - cbn [fold_left fst snd map].
    destruct (obj_assign_keys acc k (JStr v) Hacc) as [Hacc' Hkeys].
    destruct (IH _ Hacc') as [Hfold Hin].
    split; [ exact Hfold | ].
    intros k'. rewrite Hin, Hkeys. cbn [In]. split.
    + intros [ [ [-> Hk] | H ] | [H Hk] ]; auto.
    + intros [ H | [ [ <- | H ] Hk ] ]; auto.
Qed.

Lemma fold_plain_keys (es : list (string * string)) :
  forall acc : JsObject,
    NoDup (map fst acc ++ map fst es) ->
    (forall k, In k (map fst es) ->
               k <> "__proto__" /\ array_index k = None) ->
    fold_left step es acc
    = acc ++ map (fun kv => (fst kv, JStr (snd kv))) es.
Proof.
  induction es as [ | [k v] es IH ]; intros acc Hnd Hplain.
  - cbn. rewrite List.app_nil_r. reflexivity.
  - cbn [fold_left fst snd map] in *.
    destruct (Hplain k (or_introl eq_refl)) as [Hk Hindex].
    assert (Hown : has_own acc k = false).
    { apply has_own_not_In. intros Hin. apply NoDup_remove_2 in Hnd.
      apply Hnd. apply in_app_iff. left. exact Hin. }
    assert (Hstep : obj_assign k (JStr v) acc = acc ++ [(k, JStr v)]).
    { unfold obj_assign.
      destruct (String.eqb_spec k "__proto__") as [ Heq | _ ];
        [ congruence | ].
      cbn [andb]. unfold obj_define. rewrite Hown.
      clear Hnd Hown. induction acc as [ | [k0 v0] acc IHacc ];
        [ reflexivity | ].
      cbn [obj_insert app]. unfold enumerated_before at 1. rewrite Hindex.
      rewrite IHacc. reflexivity. }
    rewrite Hstep, IH.
    + rewrite <- app_assoc. reflexivity.
    + rewrite map_app. cbn [map fst]. rewrite <- app_assoc. exact Hnd.
    + intros k' Hk'. apply Hplain. right. exact Hk'.
Qed.




(** X3.  On entries whose keys are all different, none of them [__proto__]
    or an array index, [objectFromEntries] keeps every entry, in the order
    of the entries. *)
Theorem objectFromEntries_distinct (entries : list (string * string)) :
  NoDup (map fst entries) ->
  (forall k, In k (map fst entries) ->
             k <> "__proto__" /\ array_index k = None) ->
  objectFromEntries entries
  = map (fun kv => (fst kv, JStr (snd kv))) entries.
Proof.
  intros Hnd Hplain. unfold objectFromEntries.
  rewrite fold_plain_keys; [ reflexivity | exact Hnd | exact Hplain ].
Qed.

Lemma objectFromEntries_distinct_witness :
  objectFromEntries [("id", "7"); ("page", "3")]
  = map (fun kv => (fst kv, JStr (snd kv))) [("id", "7"); ("page", "3")].
Proof.
  apply (objectFromEntries_distinct [("id", "7"); ("page", "3")]).
  - repeat constructor; cbn; intuition discriminate.
  - intros k [ <- | [ <- | [] ] ]; split; (discriminate || reflexivity).
Defined.

Example objectFromEntries_enumeration :
  objectFromEntries [("b", "1"); ("2", "x"); ("__proto__", "p"); ("1", "y")]
  = [("1", JStr "y"); ("2", JStr "x"); ("b", JStr "1")].
Proof. vm_compute. reflexivity. Qed.

End ObjectFromEntries.

(** ** More on a run: the context, the console, the order of the events *)

Section Run.

Context {host : JsonHost}.
Variable setup : Setup.
Variable handler : Handler.
Variable request : NextRequest.
Variable event : NextFetchEvent.

Local Abbreviation after := (apply_field setup request event).
Local Abbreviation events := (field_events setup request event).
Local Abbreviation run := (apiHandler setup handler request event).
Local Abbreviation vcontext := (validated_context setup request event).

Lemma console_output_app (t u : list Event) :
  console_output (t ++ u) = console_output t ++ console_output u.
Proof. apply flat_map_app. Qed.

Lemma console_output_texts (texts : list string) :
  console_output (map EvConsoleLog texts) = texts.
Proof.
  induction texts as [ | x texts IH ]; [ reflexivity | ].
  cbn. f_equal. exact IH.
Qed.

Lemma console_output_loop (l : list ValidationKeys) :
  console_output (flat_map events l)
  = flat_map (fun el => snd (getData setup request event el)) l.
Proof.
  induction l as [ | el l IH ]; [ reflexivity | ].
  cbn [flat_map]. rewrite console_output_app, IH. f_equal.
  unfold field_events.
  change (EvGetData el :: ?t) with ([EvGetData el] ++ t).
  rewrite !console_output_app, console_output_texts.
  destruct (parse_field setup el _); cbn; apply List.app_nil_r.
Qed.

(** [getData] writes to the console in one case only. *)
Lemma getData_console (el : ValidationKeys) (s : string) :
  In s (snd (getData setup request event el)) ->
  s = "Invalid JSON body provided"
  /\ el = key_body
  /\ return400ValidationError (effective_config setup) = false
  /\ JSON_parse (body_text request) = None.
Proof.
  unfold getData. destruct el; try (intros []).
  destruct (JSON_parse (body_text request)); [ intros [] | ].
  destruct (return400ValidationError (effective_config setup));
    [ intros [] | ].
  intros [ <- | [] ]. auto.
Qed.

Lemma apply_field_request (c : HandlerContext) (el : ValidationKeys) :
  req (after c el) = req c /\ nfe (after c el) = nfe c.
Proof.
  unfold apply_field. destruct (parse_field setup el _) as [ [ d | e ] | ];
    split; reflexivity.
Qed.

Lemma fold_apply_field_request (l : list ValidationKeys) :
  forall c : HandlerContext,
    req (fold_left after l c) = req c /\ nfe (fold_left after l c) = nfe c.
Proof.
  induction l as [ | el l IH ]; intros c; [ split; reflexivity | ].
  cbn [fold_left]. destruct (IH (after c el)) as [Hr Hn].
  destruct (apply_field_request c el) as [Hr' Hn'].
  split; congruence.
Qed.

(** A field whose validation succeeds holds the schema's output once it had
    its turn, whatever the turns after it. *)
Lemma fold_apply_field_success (l : list ValidationKeys) (el : ValidationKeys)
  (d : JsObject) :
  parse_field setup el (fst (getData setup request event el))
  = Some (SafeParseSuccess d) ->
  forall c : HandlerContext,
    In el l \/ context_get c el = d ->
    context_get (fold_left after l c) el = d.
Proof.
  intros Hel. induction l as [ | k l IH ]; intros c H.
  - destruct H as [ [] | H ]. exact H.
  - cbn [fold_left]. apply IH.
    destruct (key_eqb k el) eqn:Hk.
    + right. apply key_eqb_eq in Hk. subst k.
      unfold apply_field. rewrite Hel. rewrite context_get_set.
      destruct el; reflexivity.
    + assert (Hne : k <> el).
      { intros ->. destruct el; discriminate. }
      destruct H as [ [ Heq | Hin ] | Hc ]; [ congruence | left; exact Hin | ].
      right. rewrite apply_field_get; [ exact Hc | left; exact Hne ].
Qed.

Lemma all_succeed_short_circuits :
  (forall el, In el (toBeParsedList setup) ->
              fails setup request event el = false) ->
  short_circuits setup request event = false.
Proof.
  intros H. unfold short_circuits.
  destruct (existsb (fails setup request event) (toBeParsedList setup))
    eqn:Hex; [ | apply andb_false_r ].
  apply existsb_exists in Hex. destruct Hex as (el & Hin & Hel).
  rewrite (H el Hin) in Hel. discriminate.
Qed.

(** What the callbacks of a run that passed the loop are called with. *)
Lemma calls_after_loop :
  short_circuits setup request event = false ->
  match preHandler setup with
  | Some pre =>
      preHandler_calls (snd run) = [vcontext]
      /\ handler_calls (snd run)
         = match snd (pre vcontext) with
           | Returned _ => [fst (pre vcontext)]
           | Threw _ => []
           end
  | None => preHandler_calls (snd run) = [] /\ handler_calls (snd run) = [vcontext]
  end.
Proof.
  intros Hsc.
  rewrite (apiHandler_validated setup request event handler Hsc). cbv zeta.
  destruct (loop_events_read setup request event (toBeParsedList setup))
    as (_ & _ & Hp & Hh).
  destruct (preHandler setup) as [ pre | ].
  - destruct (snd (pre vcontext)); cbn [snd];
      rewrite preHandler_calls_app, handler_calls_app, Hp, Hh; cbn; auto.
  - cbn [snd]. rewrite preHandler_calls_app, handler_calls_app, Hp, Hh.
    cbn. auto.
Qed.

End Run.

(** X4.  In a run that passes the validation loop, the context value of a
    configured field whose validation succeeded is the data [safeParse]
    returned for it, not the data extracted; this is the context the
    pre-handler is called with, or the handler when there is no
    pre-handler. *)
Theorem validated_value_stored {host : JsonHost} (setup : Setup)
  (handler : Handler) (request : NextRequest) (event : NextFetchEvent)
  (el : ValidationKeys) (d : JsObject) :
  short_circuits setup request event = false ->
  In el (toBeParsedList setup) ->
  parse_field setup el (fst (getData setup request event el))
  = Some (SafeParseSuccess d) ->
  context_get (validated_context setup request event) el = d
  /\ match preHandler setup with
     | Some _ =>
         preHandler_calls (snd (apiHandler setup handler request event))
         = [validated_context setup request event]
     | None =>
         handler_calls (snd (apiHandler setup handler request event))
         = [validated_context setup request event]
     end.
Proof.
  intros Hsc Hin Hel. split.
  - unfold validated_context.
    apply (fold_apply_field_success setup request event _ el d Hel).
    left. exact Hin.
  - pose proof (calls_after_loop setup handler request event Hsc) as H.
    destruct (preHandler setup); tauto.
Qed.

Lemma validated_value_stored_witness :
  let request :=
    {| searchParams := [("id", "7"); ("page", "3")]; body_text := "{}";
       header_entries := [] |} in
  context_get (validated_context query_then_body_setup request no_params)
    key_query
  = [("id", JStr "7")]
  /\ match preHandler query_then_body_setup with
     | Some _ =>
         preHandler_calls
           (snd (apiHandler query_then_body_setup ok_handler request no_params))
         = [validated_context query_then_body_setup request no_params]
     | None =>
         handler_calls
           (snd (apiHandler query_then_body_setup ok_handler request no_params))
         = [validated_context query_then_body_setup request no_params]
     end.
Proof.
  apply (validated_value_stored query_then_body_setup ok_handler
           {| searchParams := [("id", "7"); ("page", "3")]; body_text := "{}";
              header_entries := [] |}
           no_params key_query [("id", JStr "7")]).
  - reflexivity.
  - left. reflexivity.
  - reflexivity.
Defined.

(** X5.  When the validation of every configured field succeeds, whatever
    the config, the context after the loop has no issue, holds the request
    and the event of the call, and holds the empty object for every field
    that is not configured.  With no pre-handler the run resolves to what
    the handler returns on that context; with a pre-handler that returns, to
    what the handler returns on the context the pre-handler leaves. *)
Theorem all_fields_valid {host : JsonHost} (setup : Setup) (handler : Handler)
  (request : NextRequest) (event : NextFetchEvent) :
  (forall el, In el (toBeParsedList setup) ->
              fails setup request event el = false) ->
  let c := validated_context setup request event in
  errors c = []
  /\ req c = request
  /\ nfe c = event
  /\ (forall el, ~ In el (toBeParsedList setup) -> context_get c el = [])
  /\ match preHandler setup with
     | None =>
         fst (apiHandler setup handler request event) = FromHandler (handler c)
         /\ handler_calls (snd (apiHandler setup handler request event)) = [c]
     | Some pre =>
         preHandler_calls (snd (apiHandler setup handler request event)) = [c]
         /\ (forall u, snd (pre c) = Returned u ->
                       fst (apiHandler setup handler request event)
                       = FromHandler (handler (fst (pre c))))
     end.
Proof.
  intros Hok c.
  pose proof (all_succeed_short_circuits setup request event Hok) as Hsc.
  split; [ | split; [ | split; [ | split ] ] ].
  - unfold c, validated_context. rewrite fold_apply_field_errors.
    cbn [errors initial_context app].
    induction (toBeParsedList setup) as [ | el l IH ]; [ reflexivity | ].
    cbn [flat_map]. rewrite IH by (intros k Hk; apply Hok; right; exact Hk).
    specialize (Hok el (or_introl eq_refl)). unfold fails in Hok.
    unfold reported.
    destruct (failure setup request event el); [ discriminate | reflexivity ].
  - unfold c, validated_context.
    destruct (fold_apply_field_request setup request event
                (toBeParsedList setup) (initial_context request event))
      as [Hr _].
    exact Hr.
  - unfold c, validated_context.
    destruct (fold_apply_field_request setup request event
                (toBeParsedList setup) (initial_context request event))
      as [_ Hn].
    exact Hn.
  - intros el Hel. unfold c, validated_context.
    rewrite fold_apply_field_get; [ destruct el; reflexivity | left; exact Hel ].
  - pose proof (calls_after_loop setup handler request event Hsc) as Hcalls.
    rewrite (apiHandler_validated setup request event handler Hsc) in *.
    cbv zeta in *. fold c in Hcalls |- *.
    destruct (preHandler setup) as [ pre | ].
    + destruct Hcalls as [Hp _]. split; [ exact Hp | ].
      intros u Hu. rewrite Hu. reflexivity.
    + destruct Hcalls as [_ Hh]. split; [ reflexivity | exact Hh ].
Qed.

Lemma all_fields_valid_witness :
  let request :=
    {| searchParams := [("id", "7")]; body_text := "{}";
       header_entries := [] |} in
  let c := validated_context query_then_body_setup request no_params in
  errors c = []
  /\ req c = request
  /\ nfe c = no_params
  /\ (forall el, ~ In el (toBeParsedList query_then_body_setup) ->
                 context_get c el = [])
  /\ match preHandler query_then_body_setup with
     | None =>
         fst (apiHandler query_then_body_setup ok_handler request no_params)
         = FromHandler (ok_handler c)
         /\ handler_calls
              (snd (apiHandler query_then_body_setup ok_handler request
                      no_params))
            = [c]
     | Some pre =>
         preHandler_calls
           (snd (apiHandler query_then_body_setup ok_handler request no_params))
         = [c]
         /\ (forall u, snd (pre c) = Returned u ->
                       fst (apiHandler query_then_body_setup ok_handler request
                              no_params)
                       = FromHandler (ok_handler (fst (pre c))))
     end.
Proof.
  apply (all_fields_valid query_then_body_setup ok_handler
           {| searchParams := [("id", "7")]; body_text := "{}";
              header_entries := [] |}
           no_params).
  intros el [ <- | [ <- | [] ] ]; reflexivity.
Defined.

Lemma nothing_to_parse {host : JsonHost} (setup : Setup) :
  schema setup = None
  \/ (exists o, schema setup = Some o
                /\ forall k, In k (own_keys o) -> property o k = None) ->
  toBeParsedList setup = [].
Proof.
  intros H. rewrite toBeParsedList_own_keys.
  destruct H as [ -> | (o & -> & Ho) ]; [ reflexivity | ].
  induction (own_keys o) as [ | k keys IH ]; [ reflexivity | ].
  cbn [filter]. rewrite (Ho k (or_introl eq_refl)).
  apply IH. intros k' Hk'. apply Ho. right. exact Hk'.
Qed.



(** X7.  A run writes to the console only the text
    [Invalid JSON body provided], and only when the body is a configured
    field, the request's body is not JSON, and [return400ValidationError] is
    false. *)
Theorem console_only_for_invalid_json {host : JsonHost} (setup : Setup)
  (handler : Handler) (request : NextRequest) (event : NextFetchEvent)
  (s : string) :
  In s (console_output (snd (apiHandler setup handler request event))) ->
  s = "Invalid JSON body provided"
  /\ In key_body (toBeParsedList setup)
  /\ JSON_parse (body_text request) = None
  /\ return400ValidationError (effective_config setup) = false.
Proof.
  intros Hs.
  assert (Hloop : forall l,
             (forall k, In k l -> In k (toBeParsedList setup)) ->
             In s (console_output
                     (flat_map (field_events setup request event) l)) ->
             s = "Invalid JSON body provided"
             /\ In key_body (toBeParsedList setup)
             /\ JSON_parse (body_text request) = None
             /\ return400ValidationError (effective_config setup) = false).
  { intros l Hl Hin. rewrite console_output_loop in Hin.
    apply in_flat_map in Hin. destruct Hin as (el & Hel & Hin).
    destruct (getData_console setup request event el s Hin)
      as (-> & -> & Hcfg & Hbody).
    repeat split; auto. }
  destruct (run_shape setup handler request event)
    as [ (_ & pre & el & post & errs & Hl & _ & _ & Hrun) | (Hsc & Hrun) ].
  - rewrite Hrun in Hs. cbn [snd] in Hs. apply (Hloop (pre ++ [el])); auto.
    intros k Hk. rewrite Hl. apply in_app_iff in Hk. apply in_app_iff.
    destruct Hk as [ Hk | [ <- | [] ] ]; [ left; exact Hk | right; left ].
    reflexivity.
  - rewrite Hrun in Hs. cbv zeta in Hs.
    apply (Hloop (toBeParsedList setup)); [ auto | ].
    destruct (preHandler setup) as [ p | ];
      [ destruct (snd (p _)) | ]; cbn [snd] in Hs;
      rewrite console_output_app in Hs; cbn in Hs;
      rewrite List.app_nil_r in Hs; exact Hs.
Qed.

Lemma console_only_for_invalid_json_witness :
  In "Invalid JSON body provided"
     (console_output (snd (apiHandler (lenient_setup None) ok_handler
                             (post_request "not-json") no_params)))
  /\ "Invalid JSON body provided" = "Invalid JSON body provided"
  /\ In key_body (toBeParsedList (lenient_setup None))
  /\ JSON_parse (body_text (post_request "not-json")) = None
  /\ return400ValidationError (effective_config (lenient_setup None)) = false.
Proof.
  assert (H : In "Invalid JSON body provided"
                (console_output
                   (snd (apiHandler (lenient_setup None) ok_handler
                           (post_request "not-json") no_params)))).
  { left. reflexivity. }
  split; [ exact H | ].
  exact (console_only_for_invalid_json (lenient_setup None) ok_handler
           (post_request "not-json") no_params "Invalid JSON body provided" H).
Defined.

(** X8.  In the events of a run, every extraction, validation and console
    write comes before every call of a callback.  The pre-handler is called
    at most once and the handler at most once, the handler's call being the
    last event of the run. *)
Theorem callbacks_come_last {host : JsonHost} (setup : Setup)
  (handler : Handler) (request : NextRequest) (event : NextFetchEvent) :
  let t := snd (apiHandler setup handler request event) in
  (exists before callbacks,
      t = before ++ callbacks
      /\ preHandler_calls before = []
      /\ handler_calls before = []
      /\ extracted callbacks = []
      /\ validated callbacks = []
      /\ console_output callbacks = [])
  /\ List.length (preHandler_calls t) <= 1
  /\ List.length (handler_calls t) <= 1
  /\ (forall c, In c (handler_calls t) -> exists t0, t = t0 ++ [EvHandler c]).
Proof.
  intros t. subst t.
  destruct (run_shape setup handler request event)
    as [ (_ & pre & el & post & errs & _ & _ & _ & Hrun) | (Hsc & Hrun) ].
  - rewrite Hrun. cbn [snd].
    destruct (loop_events_read setup request event (pre ++ [el]))
      as (_ & _ & Hp & Hh).
    rewrite Hp, Hh. split; [ | cbn; repeat split; auto; intros c [] ].
    exists (flat_map (field_events setup request event) (pre ++ [el])), [].
    rewrite List.app_nil_r. repeat split; auto.
  - rewrite Hrun. cbv zeta.
    destruct (loop_events_read setup request event (toBeParsedList setup))
      as (_ & _ & Hp & Hh).
    destruct (preHandler setup) as [ p | ];
      [ destruct (snd (p _)) | ]; cbn [snd];
      rewrite preHandler_calls_app, handler_calls_app, Hp, Hh; cbn;
      (split; [ eexists; eexists; repeat split; eauto | ]);
      repeat split; auto.
    + intros c [ <- | [] ].
      exists (flat_map (field_events setup request event)
                (toBeParsedList setup)
                ++ [EvPreHandler (validated_context setup request event)]).
      rewrite <- app_assoc. reflexivity.
    + intros c [].
    + intros c [ <- | [] ]. eexists. reflexivity.
Qed.





Lemma filter_key_NoDup (k : ValidationKeys) (l : list ValidationKeys) :
  NoDup l -> List.length (filter (key_eqb k) l) <= 1.
Proof.
  induction 1 as [ | x l Hx Hl IH ]; [ cbn; lia | ].
  cbn [filter]. destruct (key_eqb k x) eqn:Hk; [ | exact IH ].
  apply key_eqb_eq in Hk. subst x.
  assert (Hnone : filter (key_eqb k) l = []).
  { clear IH Hl. induction l as [ | y l IHl ]; [ reflexivity | ].
    cbn [filter]. destruct (key_eqb k y) eqn:Hy.
    - apply key_eqb_eq in Hy. subst y. exfalso. apply Hx. left. reflexivity.
    - apply IHl. intros Hin. apply Hx. right. exact Hin. }
  rewrite Hnone. cbn. lia.
Qed.

(** X11.  When the property names of [setup.schema] are all different, no
    field is extracted twice in a run: in particular the request's body is
    read at most once. *)
Theorem each_field_extracted_once {host : JsonHost} (setup : Setup)
  (handler : Handler) (request : NextRequest) (event : NextFetchEvent) :
  (forall o, schema setup = Some o -> NoDup (own_keys o)) ->
  NoDup (extracted (snd (apiHandler setup handler request event)))
  /\ List.length
       (filter (key_eqb key_body)
          (extracted (snd (apiHandler setup handler request event))))
     <= 1.
Proof.
  intros Hkeys.
  assert (Hlist : NoDup (toBeParsedList setup)).
  { rewrite toBeParsedList_own_keys.
    destruct (schema setup) as [ o | ]; [ | constructor ].
    apply NoDup_filter. apply Hkeys. reflexivity. }
  assert (Hnd : NoDup (extracted (snd (apiHandler setup handler request event)))).
  { destruct (run_shape setup handler request event)
      as [ (_ & pre & el & post & errs & Hl & _ & _ & Hrun) | (Hsc & Hrun) ].
    - rewrite Hrun. cbn [snd].
      destruct (loop_events_read setup request event (pre ++ [el]))
        as (He & _).
      rewrite He. rewrite Hl in Hlist.
      change (el :: post) with ([el] ++ post) in Hlist.
      rewrite app_assoc in Hlist.
      apply NoDup_app_remove_r in Hlist. exact Hlist.
    - rewrite Hrun. cbv zeta.
      destruct (loop_events_read setup request event (toBeParsedList setup))
        as (He & _).
      destruct (preHandler setup) as [ p | ];
        [ destruct (snd (p _)) | ]; cbn [snd];
        rewrite extracted_app, He; cbn; rewrite List.app_nil_r; exact Hlist. }
  split; [ exact Hnd | apply filter_key_NoDup; exact Hnd ].
Qed.

Lemma each_field_extracted_once_witness :
  let request :=
    {| searchParams := [("id", "7")]; body_text := "{}";
       header_entries := [] |} in
  NoDup (extracted (snd (apiHandler query_then_body_setup ok_handler request
                           no_params)))
  /\ List.length
       (filter (key_eqb key_body)
          (extracted (snd (apiHandler query_then_body_setup ok_handler request
                             no_params))))
     <= 1.
Proof.
  apply (each_field_extracted_once query_then_body_setup ok_handler
           {| searchParams := [("id", "7")]; body_text := "{}";
              header_entries := [] |}
           no_params).
  intros o Ho. injection Ho as <-.
  repeat constructor; cbn; intuition discriminate.
Defined.

(** ** The config matters on a failure only *)

Section Config.

Context {host : JsonHost}.
Variable setup : Setup.
Variable request : NextRequest.
Variable event : NextFetchEvent.
Variable c : option Config.

Hypothesis body_parses :
  In key_body (toBeParsedList setup) -> JSON_parse (body_text request) <> None.

Lemma getData_with_config (el : ValidationKeys) :
  In el (toBeParsedList setup) ->
  getData (with_config setup c) request event el
  = getData setup request event el.
Proof.
  intros Hin. destruct el; try reflexivity.
  unfold getData. specialize (body_parses Hin).
  destruct (JSON_parse (body_text request)); [ reflexivity | congruence ].
Qed.

Lemma field_with_config (el : ValidationKeys) :
  In el (toBeParsedList setup) ->
  failure (with_config setup c) request event el
  = failure setup request event el
  /\ field_events (with_config setup c) request event el
     = field_events setup request event el
  /\ forall x, apply_field (with_config setup c) request event x el
               = apply_field setup request event x el.
Proof.
  intros Hin. unfold failure, field_events, apply_field.
  rewrite (getData_with_config el Hin). repeat split.
Qed.

Lemma loop_with_config (l : list ValidationKeys) :
  (forall el, In el l -> In el (toBeParsedList setup)) ->
  flat_map (field_events (with_config setup c) request event) l
  = flat_map (field_events setup request event) l
  /\ forall x, fold_left (apply_field (with_config setup c) request event) l x
               = fold_left (apply_field setup request event) l x.
Proof.
  induction l as [ | el l IH ]; intros Hl; [ split; reflexivity | ].
  destruct (field_with_config el (Hl el (or_introl eq_refl)))
    as (_ & Hev & Hap).
  destruct (IH (fun k Hk => Hl k (or_intror Hk))) as [IHev IHap].
  cbn [flat_map fold_left]. split.
  - rewrite Hev, IHev. reflexivity.
  - intros x. rewrite Hap, IHap. reflexivity.
Qed.

End Config.

(** X12.  When the validation of every configured field succeeds, and the
    request's body is JSON if the body is a configured field, the run is the
    same under any [config]: the outcome and the events do not depend on
    [return400ValidationError]. *)
Theorem config_matters_on_failure_only {host : JsonHost} (setup : Setup)
  (handler : Handler) (request : NextRequest) (event : NextFetchEvent)
  (c : option Config) :
  (In key_body (toBeParsedList setup) ->
   JSON_parse (body_text request) <> None) ->
  (forall el, In el (toBeParsedList setup) ->
              fails setup request event el = false) ->
  apiHandler (with_config setup c) handler request event
  = apiHandler setup handler request event.
Proof.
  intros Hbody Hok.
  assert (Hlist : toBeParsedList (with_config setup c) = toBeParsedList setup)
    by reflexivity.
  assert (Hok' : forall el, In el (toBeParsedList (with_config setup c)) ->
                            fails (with_config setup c) request event el
                            = false).
  { intros el Hin. rewrite Hlist in Hin. unfold fails.
    destruct (field_with_config setup request event c Hbody el Hin)
      as (Hf & _).
    rewrite Hf. apply (Hok el Hin). }
  rewrite (apiHandler_validated (with_config setup c) request event handler
             (all_succeed_short_circuits _ request event Hok')).
  rewrite (apiHandler_validated setup request event handler
             (all_succeed_short_circuits _ request event Hok)).
  cbv zeta. unfold validated_context. rewrite Hlist.
  destruct (loop_with_config setup request event c Hbody
              (toBeParsedList setup) (fun el H => H)) as [Hev Hap].
  rewrite Hev, Hap. reflexivity.
Qed.

Lemma config_matters_on_failure_only_witness :
  let request :=
    {| searchParams := [("id", "7")]; body_text := "{}";
       header_entries := [] |} in
  apiHandler (with_config query_then_body_setup (Some no_400)) ok_handler
    request no_params
  = apiHandler query_then_body_setup ok_handler request no_params.
Proof.
  apply (config_matters_on_failure_only query_then_body_setup ok_handler
           {| searchParams := [("id", "7")]; body_text := "{}";
              header_entries := [] |}
           no_params (Some no_400)).
  - intros _. discriminate.
  - intros el [ <- | [ <- | [] ] ]; reflexivity.
Defined.

(** ** The response built in [getData] *)

Lemma extracted_in_run {host : JsonHost} (setup : Setup) (handler : Handler)
  (request : NextRequest) (event : NextFetchEvent) (el : ValidationKeys) :
  In el (extracted (snd (apiHandler setup handler request event))) ->
  In el (toBeParsedList setup)
  /\ forall ev, In ev (field_events setup request event el) ->
                In ev (snd (apiHandler setup handler request event)).
Proof.
  intros Hin.
  destruct (run_shape setup handler request event)
    as [ (_ & pre & k & post & errs & Hl & _ & _ & Hrun) | (Hsc & Hrun) ].
  - rewrite Hrun in *. cbn [snd] in *.
    destruct (loop_events_read setup request event (pre ++ [k])) as (He & _).
    rewrite He in Hin. split.
    + rewrite Hl. apply in_app_iff in Hin. apply in_app_iff.
      destruct Hin as [ H | [ <- | [] ] ]; [ left; exact H | right; left ].
      reflexivity.
    + intros ev Hev. apply in_flat_map. exists el. auto.
  - rewrite Hrun in *. cbv zeta in *.
    destruct (loop_events_read setup request event (toBeParsedList setup))
      as (He & _).
    assert (Hel : In el (toBeParsedList setup)).
    { destruct (preHandler setup) as [ p | ];
        [ destruct (snd (p _)) | ]; cbn [snd] in Hin;
        rewrite extracted_app, He in Hin; cbn in Hin;
        rewrite List.app_nil_r in Hin; exact Hin. }
    split; [ exact Hel | ].
    intros ev Hev.
    assert (Ht : In ev (flat_map (field_events setup request event)
                          (toBeParsedList setup))).
    { apply in_flat_map. exists el. auto. }
    destruct (preHandler setup) as [ p | ];
      [ destruct (snd (p _)) | ]; cbn [snd]; apply in_app_iff; left; exact Ht.
Qed.

Lemma console_silent_with_400 {host : JsonHost} (setup : Setup)
  (request : NextRequest) (event : NextFetchEvent) (l : list ValidationKeys) :
  return400ValidationError (effective_config setup) = true ->
  console_output (flat_map (field_events setup request event) l) = [].
Proof.
  intros Hcfg. rewrite console_output_loop.
  induction l as [ | el l IH ]; [ reflexivity | ].
  cbn [flat_map]. rewrite IH, List.app_nil_r.
  destruct (snd (getData setup request event el)) as [ | s texts ] eqn:Hout;
    [ reflexivity | ].
  destruct (getData_console setup request event el s) as (_ & _ & Hfalse & _).
  - rewrite Hout. left. reflexivity.
  - congruence.
Qed.

(** X13.  With [return400ValidationError] true, when the body of the request
    is not JSON and a run extracts the body, the data the body schema is
    given to validate is the response [getData] built, of status 400 and
    body [{type: 'body', status: 'error', message: 'Invalid JSON body
    provided', path: []}], and nothing is written to the console. *)
Theorem invalid_json_response_reaches_schema {host : JsonHost} (setup : Setup)
  (handler : Handler) (request : NextRequest) (event : NextFetchEvent) :
  return400ValidationError (effective_config setup) = true ->
  JSON_parse (body_text request) = None ->
  In key_body (extracted (snd (apiHandler setup handler request event))) ->
  In (EvSafeParse key_body
        (VResponse
           (NextResponse_json
              (JObj [("type", JStr "body");
                     ("status", JStr "error");
                     ("message", JStr "Invalid JSON body provided");
                     ("path", JArr [])])
              400)))
     (snd (apiHandler setup handler request event))
  /\ console_output (snd (apiHandler setup handler request event)) = [].
Proof.
  intros Hcfg Hbody Hin.
  destruct (extracted_in_run setup handler request event key_body Hin)
    as [Hlist Hev].
  split.
  - apply Hev. unfold field_events.
    pose proof (getData_invalid_json setup request event Hbody) as Hdata.
    rewrite Hcfg in Hdata. rewrite Hdata. cbn [fst snd map app].
    destruct (in_toBeParsedList setup key_body Hlist) as (o & sch & Ho & Hsch).
    unfold parse_field. rewrite Ho, Hsch. right. left. reflexivity.
  - destruct (run_shape setup handler request event)
      as [ (_ & pre & k & post & errs & _ & _ & _ & Hrun) | (Hsc & Hrun) ].
    + rewrite Hrun. cbn [snd]. apply console_silent_with_400. exact Hcfg.
    + rewrite Hrun. cbv zeta.
      destruct (preHandler setup) as [ p | ];
        [ destruct (snd (p _)) | ]; cbn [snd];
        rewrite console_output_app, console_silent_with_400 by exact Hcfg;
        reflexivity.
Qed.

Lemma invalid_json_response_reaches_schema_witness :
  In (EvSafeParse key_body
        (VResponse
           (NextResponse_json
              (JObj [("type", JStr "body");
                     ("status", JStr "error");
                     ("message", JStr "Invalid JSON body provided");
                     ("path", JArr [])])
              400)))
     (snd (apiHandler body_any_setup ok_handler (post_request "not-json")
             no_params))
  /\ console_output (snd (apiHandler body_any_setup ok_handler
                            (post_request "not-json") no_params))
     = [].
Proof.
  apply (invalid_json_response_reaches_schema body_any_setup ok_handler
           (post_request "not-json") no_params).
  - reflexivity.
  - reflexivity.
  - left. reflexivity.
Defined.

(** X14.  A run calls neither the pre-handler nor the handler exactly when
    [return400ValidationError] is true and the validation of some configured
    field fails; the run then resolves to a response of status 400. *)
Theorem no_callback_iff_validation_400 {host : JsonHost} (setup : Setup)
  (handler : Handler) (request : NextRequest) (event : NextFetchEvent) :
  let t := snd (apiHandler setup handler request event) in
  ((preHandler_calls t = [] /\ handler_calls t = [])
   <-> (return400ValidationError (effective_config setup) = true
        /\ exists el, In el (toBeParsedList setup)
                      /\ fails setup request event el = true))
  /\ (preHandler_calls t = [] /\ handler_calls t = [] ->
      exists r, fst (apiHandler setup handler request event) = Responded r
                /\ response_status r = 400%Z).
Proof.
  intros t. subst t.
  destruct (run_shape setup handler request event)
    as [ (Hsc & pre & k & post & errs & Hl & Hpre & Hel & Hrun)
       | (Hsc & Hrun) ].
  - rewrite Hrun. cbn [fst snd].
    destruct (loop_events_read setup request event (pre ++ [k]))
      as (_ & _ & Hp & Hh).
    unfold short_circuits in Hsc. apply andb_true_iff in Hsc.
    destruct Hsc as [Hcfg Hex]. apply existsb_exists in Hex.
    split.
    + split; [ intros _; split; [ exact Hcfg | exact Hex ] | auto ].
    + intros _. eexists. split; reflexivity.
  - assert (Hcalls : ~ (preHandler_calls
                          (snd (apiHandler setup handler request event)) = []
                        /\ handler_calls
                             (snd (apiHandler setup handler request event))
                           = [])).
    { pose proof (calls_after_loop setup handler request event Hsc) as H.
      destruct (preHandler setup) as [ p | ]; destruct H as [Hp Hh];
        intros [Hp' Hh']; congruence. }
    split.
    + split; [ intros H; exfalso; exact (Hcalls H) | ].
      intros (Hcfg & el & Hin & Hfail). exfalso.
      pose proof (short_circuits_false setup request event Hsc Hcfg el Hin).
      congruence.
    + intros H. exfalso. exact (Hcalls H).
Qed.
